(** * The MCP server registry of a vault

    A shallow embedding of the registry accessor
    ([getMcpServers], [addMcpServer], [updateMcpServer],
    [removeMcpServer]) and of the vault resolver ([getActiveVault]),
    followed by the properties the specification states about them.

    Asynchronous functions are modelled as state transformers over a
    [World]: the known vaults, the window/vault association, the files
    on disk and the console.  A rejected promise or a thrown [Error] is
    the [Err] case of [Result]. *)

From Stdlib Require Import ZArith String Ascii List.
From stdpp Require Import base gmap strings list fin_maps.

Open Scope Z_scope.
Open Scope string_scope.

(** ** JavaScript values used by the registry *)

Module Js.

(** Truthiness of an optional [number]: [undefined] and [0] are falsy. *)
Definition truthy_number (n : option Z) : bool :=
  match n with
  | Some n => negb (Z.eqb n 0)
  | None => false
  end.

(** Truthiness of an optional [string]: [undefined] and [""] are falsy. *)
Definition truthy_string (s : option string) : bool :=
  match s with
  | Some s => negb (String.eqb s "")
  | None => false
  end.

(** The key a property access [o[k]] uses when [k] may be [undefined]. *)
Definition property_key (k : option string) : string :=
  match k with
  | Some k => k
  | None => "undefined"
  end.

(** Names every plain object inherits from [Object.prototype].  A plain
    object (an object literal such as [{}], or one built by
    [JSON.parse]) answers a read of one of these names with the
    inherited member, a function or, for [__proto__], the prototype
    object: all of them truthy. *)
Definition object_prototype_keys : list string :=
  [ "constructor"; "__defineGetter__"; "__defineSetter__";
    "hasOwnProperty"; "__lookupGetter__"; "__lookupSetter__";
    "isPrototypeOf"; "propertyIsEnumerable"; "toString"; "valueOf";
    "__proto__"; "toLocaleString" ].

Definition inherited (k : string) : bool :=
  bool_decide (k ∈ object_prototype_keys).

Section PlainObject.
Context {V : Type}.

(** A plain object used as a map: its own enumerable properties, the
    ones [JSON.stringify] writes and a schema reads back.  Every own
    value is itself an object, hence truthy. *)

(** Truthiness of [o[k]]: an own property, or else the member found
    on the prototype chain. *)
Definition truthy_get (o : gmap string V) (k : string) : bool :=
  bool_decide (is_Some (o !! k)) || inherited k.

(** [o[k] = v].  An own property is overwritten; a name with no own
    property is created, except [__proto__], whose inherited setter
    changes the prototype and creates no own property. *)
Definition set (o : gmap string V) (k : string) (v : V) : gmap string V :=
  if bool_decide (k = "__proto__" ∧ o !! k = None) then o
  else <[k := v]> o.

(** [delete o[k]]: removes the own property, if any. *)
Definition delete_key (o : gmap string V) (k : string) : gmap string V :=
  delete k o.
End PlainObject.

End Js.

(** ** Identifiers: version 4 UUIDs

    [uuidv4] comes from the [uuid] package, an external dependency.  It
    draws 16 random bytes, stamps the version and variant bits and prints
    the bytes in lower-case hexadecimal, grouped 8-4-4-4-12.  The random
    bytes are an explicit argument here. *)

Module Uuid.

Definition hex_digit (n : Z) : ascii :=
  nth (Z.to_nat (Z.land n 15))
      [ "0"; "1"; "2"; "3"; "4"; "5"; "6"; "7";
        "8"; "9"; "a"; "b"; "c"; "d"; "e"; "f" ]%char "0"%char.

Definition byteToHex (b : Z) : string :=
  String (hex_digit (Z.shiftr b 4)) (String (hex_digit b) "").

Definition byte_at (rnds : list Z) (i : nat) : Z := nth i rnds 0.

Definition uuidv4 (rnds : list Z) : string :=
  let b := byte_at rnds in
  let b6 := Z.lor (Z.land (b 6%nat) 15) 64 in
  let b8 := Z.lor (Z.land (b 8%nat) 63) 128 in
  byteToHex (b 0%nat) +:+ byteToHex (b 1%nat) +:+
  byteToHex (b 2%nat) +:+ byteToHex (b 3%nat) +:+ "-" +:+
  byteToHex (b 4%nat) +:+ byteToHex (b 5%nat) +:+ "-" +:+
  byteToHex b6 +:+ byteToHex (b 7%nat) +:+ "-" +:+
  byteToHex b8 +:+ byteToHex (b 9%nat) +:+ "-" +:+
  byteToHex (b 10%nat) +:+ byteToHex (b 11%nat) +:+
  byteToHex (b 12%nat) +:+ byteToHex (b 13%nat) +:+
  byteToHex (b 14%nat) +:+ byteToHex (b 15%nat).

(** The sixteen bytes a UUID spells: the random bytes, with the version
    (high nibble of byte 6 is 4) and the variant (top bits of byte 8 are
    10) stamped over them. *)
Definition stamp (rnds : list Z) : list Z :=
  let b i := Z.land (byte_at rnds i) 255 in
  [ b 0%nat; b 1%nat; b 2%nat; b 3%nat; b 4%nat; b 5%nat;
    Z.lor (Z.land (byte_at rnds 6%nat) 15) 64; b 7%nat;
    Z.lor (Z.land (byte_at rnds 8%nat) 63) 128; b 9%nat;
    b 10%nat; b 11%nat; b 12%nat; b 13%nat; b 14%nat; b 15%nat ].

(** Reading a UUID back: the value of a lower-case hexadecimal digit,
    [n] bytes of two digits each, a dash, and the bytes of a string laid
    out 8-4-4-4-12. *)
Definition unhex (c : ascii) : option Z :=
  (λ found, Z.of_nat found.1) <$>
    list_find (λ d, d = c)
      [ "0"; "1"; "2"; "3"; "4"; "5"; "6"; "7";
        "8"; "9"; "a"; "b"; "c"; "d"; "e"; "f" ]%char.

Fixpoint read_bytes (n : nat) (s : string) : option (list Z * string) :=
  match n with
  | O => Some ([], s)
  | S n' =>
      match s with
      | String h (String l rest) =>
          hi ← unhex h; lo ← unhex l;
          r ← read_bytes n' rest;
          Some (16 * hi + lo :: r.1, r.2)
      | _ => None
      end
  end.

Definition read_dash (s : string) : option string :=
  match s with
  | String c rest => if Ascii.eqb c "-" then Some rest else None
  | EmptyString => None
  end.

Definition parse (s : string) : option (list Z) :=
  g1 ← read_bytes 4 s; s1 ← read_dash g1.2;
  g2 ← read_bytes 2 s1; s2 ← read_dash g2.2;
  g3 ← read_bytes 2 s2; s3 ← read_dash g3.2;
  g4 ← read_bytes 2 s3; s4 ← read_dash g4.2;
  g5 ← read_bytes 6 s4;
  if String.eqb g5.2 "" then Some (g1.1 ++ g2.1 ++ g3.1 ++ g4.1 ++ g5.1)%list
  else None.

End Uuid.

(** ** Data model *)

Record Vault := { vault_id : string; vault_path : string }.

(** A server record: its identifier, optional until the registry assigns
    one, and the remaining schema-validated fields, opaque here. *)
Record McpServer := { id : option string; config : list (string * string) }.

Definition with_id (i : string) (s : McpServer) : McpServer :=
  {| id := Some i; config := config s |}.

Record McpServerRegistry := { servers : gmap string McpServer }.

(** The literal [{ servers: {} }] every operation passes as default. *)
Definition default_registry : McpServerRegistry := {| servers := ∅ |}.

Inductive Error :=
| NoVaultsFound
| ServerNotFound (serverId : string)
| WriteFailed (path : string).

Inductive Result (A : Type) :=
| Ok (a : A)
| Err (e : Error).
Arguments Ok {A} a.
Arguments Err {A} e.

(** What a registry path holds: text that does not parse or does not
    pass [McpServerRegistrySchema], or a document that does. *)
Inductive FileContent :=
| Malformed
| Document (d : McpServerRegistry).

Record World := {
  vaults : list Vault;
  windowVaults : gmap Z string;
  files : gmap string FileContent;
  unwritable : gset string;
  console : list (string * Error)
}.

Definition with_files (fs : gmap string FileContent) (w : World) : World :=
  {| vaults := vaults w; windowVaults := windowVaults w; files := fs;
     unwritable := unwritable w; console := console w |}.

Definition with_windowVaults (m : gmap Z string) (w : World) : World :=
  {| vaults := vaults w; windowVaults := m; files := files w;
     unwritable := unwritable w; console := console w |}.

Definition console_error (msg : string) (e : Error) (w : World) : World :=
  {| vaults := vaults w; windowVaults := windowVaults w; files := files w;
     unwritable := unwritable w; console := console w ++ [(msg, e)] |}.

(** ** Asynchronous computations that may reject *)

Definition Async (A : Type) : Type := World → Result A * World.

Definition resolve {A} (a : A) : Async A := λ w, (Ok a, w).
Definition reject {A} (e : Error) : Async A := λ w, (Err e, w).

Definition await {A B} (c : Async A) (k : A → Async B) : Async B :=
  λ w, match c w with
       | (Ok a, w') => k a w'
       | (Err e, w') => (Err e, w')
       end.

Notation "'let!' x ':=' c 'in' k" := (await c (λ x, k))
  (at level 10, x name, c at level 100, k at level 200).

(** [try { body } catch (error) { console.error(msg, error); return dflt }] *)
Definition try_catch {A} (body : Async A) (msg : string) (dflt : A)
  : World → A * World :=
  λ w, match body w with
       | (Ok a, w') => (a, w')
       | (Err e, w') => (dflt, console_error msg e w')
       end.

(** ** Collaborators *)

(** [vaultManager.getVaults()]: the known vaults, in the collaborator's
    order. *)
Definition getVaults : Async (list Vault) := λ w, (Ok (vaults w), w).

(** Modelled from the spec: [windowVaultManager.getActiveVaultForWindow]
    is not among the sources.  The association is a mapping from window
    id to vault id ([setActiveVaultForWindow(window.id, vault.id)] in
    openVault.ts writes it); the lookup returns the vault of [vaults]
    carrying the associated id, or nothing. *)
Definition getActiveVaultForWindow (windowId : Z) (vs : list Vault)
    (w : World) : option Vault :=
  match windowVaults w !! windowId with
  | Some vid => find (λ v, String.eqb (vault_id v) vid) vs
  | None => None
  end.

(** [path.join] of Node, in its POSIX flavour: the non-empty arguments
    are joined with [/] and the result is normalised, that is, empty and
    [.] segments are dropped, [..] removes the segment before it (and is
    kept in front of a relative path, dropped at the root), and a leading
    or trailing separator is kept. *)
Module Path.

Definition isPathSeparator (c : ascii) : bool := Ascii.eqb c "/".

(** The segments between separators, as [path.split("/")] gives them. *)
Fixpoint segments (path : string) : list string :=
  match path with
  | EmptyString => [EmptyString]
  | String c rest =>
      if isPathSeparator c then EmptyString :: segments rest
      else match segments rest with
           | seg :: more => String c seg :: more
           | [] => [String c EmptyString]
           end
  end.

(** One segment met by [normalizeString]; [res] holds the segments kept
    so far, the last one first. *)
Definition keep (allowAboveRoot : bool) (res : list string) (seg : string)
  : list string :=
  if String.eqb seg "" || String.eqb seg "." then res
  else if String.eqb seg ".." then
    match res with
    | last :: before =>
        if String.eqb last ".."
        then if allowAboveRoot then seg :: res else res
        else before
    | [] => if allowAboveRoot then [seg] else []
    end
  else seg :: res.

Definition normalizeString (path : string) (allowAboveRoot : bool) : string :=
  String.concat "/" (rev (foldl (keep allowAboveRoot) [] (segments path))).

Definition isAbsolute (path : string) : bool :=
  match path with
  | String c _ => isPathSeparator c
  | EmptyString => false
  end.

Fixpoint trailingSeparator (path : string) : bool :=
  match path with
  | EmptyString => false
  | String c EmptyString => isPathSeparator c
  | String _ rest => trailingSeparator rest
  end.

Definition normalize (path : string) : string :=
  if String.eqb path "" then "."
  else
    let body := normalizeString path (negb (isAbsolute path)) in
    if String.eqb body "" then
      if isAbsolute path then "/"
      else if trailingSeparator path then "./" else "."
    else
      (if isAbsolute path then "/" else "") +:+ body
      +:+ (if trailingSeparator path then "/" else "").

Definition join (args : list string) : string :=
  let joined := String.concat "/" (filter (λ s, s ≠ "") args) in
  if String.eqb joined "" then "." else normalize joined.

End Path.

Definition path_join (segments : list string) : string := Path.join segments.

(** ** The JSON document store *)

(** Modelled from the spec: [readJsonFile] of core/utils/json-file-utils
    is not among the sources.  It parses the file at [filePath]; if the
    file does not exist or fails schema validation it returns
    [defaultValue] without raising, otherwise the validated document.
    The schema argument is the [Malformed]/[Document] split of
    [FileContent]. *)
Definition readJsonFile (filePath : string) (defaultValue : McpServerRegistry)
  : Async McpServerRegistry :=
  λ w, match files w !! filePath with
       | Some (Document d) => (Ok d, w)
       | Some Malformed | None => (Ok defaultValue, w)
       end.

(** Modelled from the spec: [writeJsonFile] serialises the document and
    writes it to [filePath].  The spec promises nothing about a write
    that fails; here it rejects and is taken to be all or nothing, the
    file keeping its content. *)
Definition writeJsonFile (filePath : string) (data : McpServerRegistry)
  : Async unit :=
  λ w, if bool_decide (filePath ∈ unwritable w)
       then (Err (WriteFailed filePath), w)
       else (Ok tt, with_files (<[filePath := Document data]> (files w)) w).

(** Modelled from the spec: [updateJsonFile] reads the current document
    with the same default-on-failure policy, applies [updateFn], which
    may raise to abort the update, and writes the result back; if
    [updateFn] raises, no write occurs. *)
Definition updateJsonFile (filePath : string)
    (updateFn : McpServerRegistry → Result McpServerRegistry)
    (defaultValue : McpServerRegistry) : Async McpServerRegistry :=
  let! current := readJsonFile filePath defaultValue in
  match updateFn current with
  | Err e => reject e
  | Ok updated =>
      let! _ := writeJsonFile filePath updated in
      resolve updated
  end.

(** ** The registry accessor *)

Definition getMcpServersRegistryPath (vaultPath : string) : string :=
  path_join [vaultPath; ".vault"; "mcp-servers-registry.json"].

(** [vaults.length === 0] throws; [if (windowId)] guards the lookup;
    [vaults[0]] is the fallback. *)
Definition getActiveVault (windowId : option Z) : Async Vault :=
  let! vs := getVaults in
  match vs with
  | [] => reject NoVaultsFound
  | first :: _ =>
      λ w,
        let activeVault :=
          match windowId with
          | Some n =>
              if Js.truthy_number (Some n)
              then getActiveVaultForWindow n vs w
              else None
          | None => None
          end in
        match activeVault with
        | Some v => (Ok v, w)
        | None => (Ok first, w)
        end
  end.

Definition getMcpServers_body (windowId : option Z)
  : Async (gmap string McpServer) :=
  let! activeVault := getActiveVault windowId in
  let registryPath := getMcpServersRegistryPath (vault_path activeVault) in
  let! registry := readJsonFile registryPath default_registry in
  resolve (servers registry).

Definition getMcpServers (windowId : option Z)
  : World → gmap string McpServer * World :=
  try_catch (getMcpServers_body windowId) "Failed to get MCP servers:" ∅.

(** [if (!server.id) { server.id = uuidv4(); }] *)
Definition assign_id (rnds : list Z) (server : McpServer) : McpServer :=
  if negb (Js.truthy_string (id server))
  then with_id (Uuid.uuidv4 rnds) server
  else server.

(** The mutator of [addMcpServer]:
    [registry.servers[server.id] = server]. *)
Definition add_mutator (server : McpServer)
  : McpServerRegistry → Result McpServerRegistry :=
  λ registry,
    Ok {| servers :=
            Js.set (servers registry) (Js.property_key (id server)) server |}.

Definition addMcpServer_body (rnds : list Z) (server : McpServer)
    (windowId : option Z) : Async bool :=
  let! activeVault := getActiveVault windowId in
  let server := assign_id rnds server in
  let registryPath := getMcpServersRegistryPath (vault_path activeVault) in
  let! _ := updateJsonFile registryPath (add_mutator server) default_registry in
  resolve true.

(** [rnds] are the 16 bytes the random source hands to [uuidv4] should
    this call need an identifier. *)
Definition addMcpServer (rnds : list Z) (server : McpServer)
    (windowId : option Z) : World → bool * World :=
  try_catch (addMcpServer_body rnds server windowId)
            "Failed to add MCP server:" false.

(** The mutator of [updateMcpServer]: throw unless
    [registry.servers[serverId]] is truthy, then
    [registry.servers[serverId] = server]. *)
Definition update_mutator (serverId : string) (server : McpServer)
  : McpServerRegistry → Result McpServerRegistry :=
  λ registry,
    if negb (Js.truthy_get (servers registry) serverId)
    then Err (ServerNotFound serverId)
    else Ok {| servers := Js.set (servers registry) serverId server |}.

Definition updateMcpServer_body (serverId : string) (server : McpServer)
    (windowId : option Z) : Async bool :=
  let! activeVault := getActiveVault windowId in
  let server := with_id serverId server in
  let registryPath := getMcpServersRegistryPath (vault_path activeVault) in
  let! _ := updateJsonFile registryPath (update_mutator serverId server)
                           default_registry in
  resolve true.

Definition updateMcpServer (serverId : string) (server : McpServer)
    (windowId : option Z) : World → bool * World :=
  try_catch (updateMcpServer_body serverId server windowId)
            "Failed to update MCP server:" false.

(** The mutator of [removeMcpServer]: throw unless
    [registry.servers[serverId]] is truthy, then
    [delete registry.servers[serverId]]. *)
Definition remove_mutator (serverId : string)
  : McpServerRegistry → Result McpServerRegistry :=
  λ registry,
    if negb (Js.truthy_get (servers registry) serverId)
    then Err (ServerNotFound serverId)
    else Ok {| servers := Js.delete_key (servers registry) serverId |}.

Definition removeMcpServer_body (serverId : string) (windowId : option Z)
  : Async bool :=
  let! activeVault := getActiveVault windowId in
  let registryPath := getMcpServersRegistryPath (vault_path activeVault) in
  let! _ := updateJsonFile registryPath (remove_mutator serverId)
                           default_registry in
  resolve true.

Definition removeMcpServer (serverId : string) (windowId : option Z)
  : World → bool * World :=
  try_catch (removeMcpServer_body serverId windowId)
            "Failed to remove MCP server:" false.

(** ** Notions the properties are stated with *)

(** The document a read of [p] yields. *)
Definition registry_at (p : string) (w : World) : McpServerRegistry :=
  match files w !! p with
  | Some (Document d) => d
  | Some Malformed | None => default_registry
  end.

(** The outcome of vault resolution. *)
Definition resolved (windowId : option Z) (w : World) : Result Vault :=
  fst (getActiveVault windowId w).

(** The mapping [getMcpServers] lists. *)
Definition listed (windowId : option Z) (w : World) : gmap string McpServer :=
  fst (getMcpServers windowId w).

(** The shape shared by the three writing operations: resolve the vault,
    update its registry with [f], answer [true]. *)
Definition registry_update
    (f : McpServerRegistry → Result McpServerRegistry)
    (windowId : option Z) : Async bool :=
  let! activeVault := getActiveVault windowId in
  let! _ := updateJsonFile (getMcpServersRegistryPath (vault_path activeVault))
                           f default_registry in
  resolve true.

(** Resolution as the specification words it, with the window id [0]
    counted as not supplied: no vault is an error; a supplied window id
    whose lookup finds a vault gives that vault; anything else gives the
    first known vault. *)
Definition resolveActiveVault_spec (windowId : option Z) (w : World)
  : Result Vault :=
  match vaults w with
  | [] => Err NoVaultsFound
  | first :: _ =>
      match windowId with
      | Some n =>
          if bool_decide (n = 0) then Ok first
          else match getActiveVaultForWindow n (vaults w) w with
               | Some v => Ok v
               | None => Ok first
               end
      | None => Ok first
      end
  end.

(** What a writing operation answers, given how its body ended. *)
Definition settles_bool (body : Async bool) (msg : string)
    (op : World → bool * World) (w : World) : Prop :=
  (∃ w', body w = (Ok true, w') ∧ op w = (true, w')) ∨
  (∃ e w', body w = (Err e, w') ∧ op w = (false, console_error msg e w')).

(** ** Sequences of operations *)

(** Every key of the mapping is the [id] of the record stored under it. *)
Definition keys_match_ids (d : McpServerRegistry) : Prop :=
  ∀ k r, servers d !! k = Some r → id r = Some k.

Inductive Op :=
| Add (rnds : list Z) (server : McpServer) (windowId : option Z)
| Update (serverId : string) (server : McpServer) (windowId : option Z)
| Remove (serverId : string) (windowId : option Z).

Definition run_op (o : Op) (w : World) : World :=
  match o with
  | Add rnds server windowId => snd (addMcpServer rnds server windowId w)
  | Update serverId server windowId =>
      snd (updateMcpServer serverId server windowId w)
  | Remove serverId windowId => snd (removeMcpServer serverId windowId w)
  end.

(** Worlds reached from one in which every registry still reads as the
    default empty document, by the three writing operations, interleaved
    with arbitrary changes of everything but the files (vaults opened,
    windows re-associated, disks filling up). *)
Inductive reachable : World → Prop :=
| reach_default (w : World) :
    (∀ p, registry_at p w = default_registry) → reachable w
| reach_op (o : Op) (w : World) :
    reachable w → reachable (run_op o w)
| reach_env (w w' : World) :
    reachable w → files w' = files w → reachable w'.

(** [P] holds of every registry document of the world. *)
Definition all_registries (P : McpServerRegistry → Prop) (w : World) : Prop :=
  ∀ p, P (registry_at p w).

(** The answer, the window and the log message of an operation. *)
Definition op_answer (o : Op) (w : World) : bool :=
  match o with
  | Add rnds server windowId => fst (addMcpServer rnds server windowId w)
  | Update serverId server windowId =>
      fst (updateMcpServer serverId server windowId w)
  | Remove serverId windowId => fst (removeMcpServer serverId windowId w)
  end.

Definition op_window (o : Op) : option Z :=
  match o with
  | Add _ _ windowId | Update _ _ windowId | Remove _ windowId => windowId
  end.

Definition op_message (o : Op) : string :=
  match o with
  | Add _ _ _ => "Failed to add MCP server:"
  | Update _ _ _ => "Failed to update MCP server:"
  | Remove _ _ => "Failed to remove MCP server:"
  end.

(** The key an operation works on: the id the record has once
    [addMcpServer] has assigned one, or the [serverId] argument. *)
Definition op_key (o : Op) : string :=
  match o with
  | Add rnds server _ => Js.property_key (id (assign_id rnds server))
  | Update serverId _ _ | Remove serverId _ => serverId
  end.

(** The mutator an operation hands to [updateJsonFile]. *)
Definition op_mutator (o : Op)
  : McpServerRegistry → Result McpServerRegistry :=
  match o with
  | Add rnds server _ => add_mutator (assign_id rnds server)
  | Update serverId server _ =>
      update_mutator serverId (with_id serverId server)
  | Remove serverId _ => remove_mutator serverId
  end.

(** ** Example worlds *)

Module Examples.

Definition notes : Vault :=
  {| vault_id := "v1"; vault_path := "/home/u/notes" |}.
Definition work : Vault :=
  {| vault_id := "v2"; vault_path := "/home/u/work" |}.

Definition notes_registry : string :=
  "/home/u/notes/.vault/mcp-servers-registry.json".

(** Two vaults, no registry file yet; windows 0 and 7 both point at the
    second vault. *)
Definition fresh : World :=
  {| vaults := [notes; work];
     windowVaults := {[ 0 := "v2"; 7 := "v2" ]};
     files := ∅; unwritable := ∅; console := [] |}.

Definition no_vaults : World :=
  {| vaults := []; windowVaults := ∅;
     files := ∅; unwritable := ∅; console := [] |}.

Definition x : McpServer := {| id := None; config := [("name", "x")] |}.
Definition y : McpServer := {| id := Some "stale"; config := [("name", "y")] |}.
Definition blank : McpServer := {| id := Some ""; config := [("name", "z")] |}.

Definition zero_uuid : string := "00000000-0000-4000-8000-000000000000".

(** The first vault already holds a record under [zero_uuid] and one
    under ["a"]. *)
Definition stocked : World :=
  with_files
    {[ notes_registry :=
         Document {| servers :=
           {[ zero_uuid := with_id zero_uuid y;
              "a" := with_id "a" y ]} |} ]}
    fresh.

Definition garbled : World :=
  with_files {[ notes_registry := Malformed ]} fresh.

Definition read_only : World :=
  {| vaults := vaults stocked; windowVaults := windowVaults stocked;
     files := files stocked; unwritable := {[ notes_registry ]};
     console := [] |}.

(** The first vault once more under another spelling of its directory,
    active in window 5. *)
Definition notes_again : Vault :=
  {| vault_id := "v3"; vault_path := "/home/u/work/../notes/" |}.

Definition aliased : World :=
  {| vaults := [notes; notes_again];
     windowVaults := {[ 5 := "v3" ]};
     files := ∅; unwritable := ∅; console := [] |}.

(** [fresh] after an add, an update and a remove. *)
Definition busy : World :=
  run_op (Remove "b" None)
    (run_op (Update "constructor" y None)
       (run_op (Add [] x None) fresh)).

End Examples.

(** ** The sidebar's expanded folders (app-sidebar.tsx) *)

Module Sidebar.

(** The component state the file tree uses: the [expandedFolders] set
    and the [initialRootExpandDone] ref. *)
Record State := {
  expandedFolders : gset string;
  initialRootExpandDone : bool
}.

(** [useState(new Set())] and [useRef(false)]. *)
Definition initial : State :=
  {| expandedFolders := ∅; initialRootExpandDone := false |}.

(** The updater of [toggleFolder]: a copy of [prev] without [path] if it
    had it, with [path] otherwise. *)
Definition toggle (path : string) (prev : gset string) : gset string :=
  if bool_decide (path ∈ prev) then prev ∖ {[path]} else prev ∪ {[path]}.

Definition toggleFolder (path : string) (st : State) : State :=
  {| expandedFolders := toggle path (expandedFolders st);
     initialRootExpandDone := initialRootExpandDone st |}.

(** The effect run when [fileTreeQuery.data] changes; [name] is
    [fileTreeQuery.data?.tree?.name]. *)
Definition rootExpandEffect (name : option string) (st : State) : State :=
  match name with
  | Some n =>
      if Js.truthy_string (Some n) && negb (initialRootExpandDone st)
      then {| expandedFolders := expandedFolders st ∪ {[n]};
              initialRootExpandDone := true |}
      else st
  | None => st
  end.

(** What happens to the component between renders. *)
Inductive Event :=
| DataChanged (name : option string)
| Toggled (path : string).

Definition step (st : State) (e : Event) : State :=
  match e with
  | DataChanged name => rootExpandEffect name st
  | Toggled path => toggleFolder path st
  end.

Definition run (events : list Event) (st : State) : State :=
  foldl step st events.

(** The toggles of an event list, applied to a set. *)
Definition toggles (events : list Event) (s : gset string) : gset string :=
  foldl (λ s e, match e with
                | Toggled path => toggle path s
                | DataChanged _ => s
                end) s events.

End Sidebar.

(** ** The conversations page (ConversationsPage.tsx) *)

Module Conversations.

Record Conversation := { conv_id : string; conv_name : string }.

(** How a call to a collaborator ends. *)
Inductive Outcome (A : Type) :=
| Returned (a : A)
| Threw.
Arguments Returned {A} a.
Arguments Threw {A}.

(** What a handler does to the outside, in order. *)
Inductive Effect :=
| Confirm (message : string) (answer : bool)
| CreateConversation (name : string)
| DeleteConversation (conversationId : string)
| Navigate (conversationId : string)
| ConsoleError (message : string).

Definition quote : string := String (ascii_of_nat 34) EmptyString.

(** The text of [window.confirm] in [handleDeleteConversation]. *)
Definition confirm_message (c : Conversation) : string :=
  "Are you sure you want to delete " +:+ quote +:+ conv_name c +:+ quote
  +:+ "?".

(** [now] is [new Date().toLocaleString()]; [created] is how
    [createConversation(name)] ends, with [None] for a falsy result. *)
Definition handleCreateConversation (now : string)
    (created : Outcome (option Conversation)) : list Effect :=
  CreateConversation ("New Conversation " +:+ now) ::
  match created with
  | Returned (Some c) => [Navigate (conv_id c)]
  | Returned None => []
  | Threw => [ConsoleError "Failed to create conversation:"]
  end.

Definition handleSelectConversation (c : Conversation) : list Effect :=
  [Navigate (conv_id c)].

(** [answer] is what [window.confirm] returns; [deleted] is how
    [deleteConversation(conversation.id)] ends. *)
Definition handleDeleteConversation (c : Conversation) (answer : bool)
    (deleted : Outcome unit) : list Effect :=
  Confirm (confirm_message c) answer ::
  if negb answer then []
  else DeleteConversation (conv_id c) ::
       match deleted with
       | Returned _ => []
       | Threw => [ConsoleError "Failed to delete conversation:"]
       end.

(** What the user does on the page, with the answers of the
    collaborators. *)
Inductive Action :=
| ClickCreate (now : string) (created : Outcome (option Conversation))
| ClickSelect (c : Conversation)
| ClickDelete (c : Conversation) (answer : bool) (deleted : Outcome unit).

Definition handle (a : Action) : list Effect :=
  match a with
  | ClickCreate now created => handleCreateConversation now created
  | ClickSelect c => handleSelectConversation c
  | ClickDelete c answer deleted => handleDeleteConversation c answer deleted
  end.

Fixpoint trace (actions : list Action) : list Effect :=
  match actions with
  | [] => []
  | a :: rest => (handle a ++ trace rest)%list
  end.

End Conversations.

(** * Facts *)

(** ** Facts about identifiers *)

Lemma uuidv4_length (rnds : list Z) :
  String.length (Uuid.uuidv4 rnds) = 36%nat.
Proof. reflexivity. Qed.

Lemma uuidv4_nonempty (rnds : list Z) : Uuid.uuidv4 rnds ≠ "".
Proof.
  intros H. pose proof (uuidv4_length rnds) as L.
  rewrite H in L. discriminate L.
Qed.

Lemma inherited_length (k : string) :
  Js.inherited k = true → String.length k ≠ 36%nat.
Proof.
  unfold Js.inherited, Js.object_prototype_keys.
  rewrite bool_decide_eq_true, !elem_of_cons, elem_of_nil.
  intros H. repeat (destruct H as [-> | H]; [vm_compute; discriminate |]).
  destruct H.
Qed.

Lemma uuidv4_not_inherited (rnds : list Z) :
  Js.inherited (Uuid.uuidv4 rnds) = false.
Proof.
  destruct (Js.inherited (Uuid.uuidv4 rnds)) eqn:E; [| reflexivity].
  apply inherited_length in E. destruct E. apply uuidv4_length.
Qed.

(** *** The UUID spells the random bytes *)

Lemma unhex_hex_digit (n : Z) :
  Uuid.unhex (Uuid.hex_digit n) = Some (Z.land n 15).
Proof.
  unfold Uuid.hex_digit.
  pose proof (Z.land_ones n 4 ltac:(lia)) as H.
  change (Z.ones 4) with 15 in H.
  pose proof (Z.mod_pos_bound n (2 ^ 4) ltac:(lia)) as B. rewrite <- H in B.
  clear H. generalize dependent (Z.land n 15). intros m B.
  assert (m = 0 ∨ m = 1 ∨ m = 2 ∨ m = 3 ∨ m = 4 ∨ m = 5 ∨ m = 6 ∨ m = 7 ∨
          m = 8 ∨ m = 9 ∨ m = 10 ∨ m = 11 ∨ m = 12 ∨ m = 13 ∨ m = 14 ∨
          m = 15) as H by lia.
  repeat (destruct H as [-> | H]; [reflexivity |]). subst m. reflexivity.
Qed.

Lemma byte_nibbles (b : Z) :
  16 * Z.land (Z.shiftr b 4) 15 + Z.land b 15 = Z.land b 255.
Proof.
  change 15 with (Z.ones 4). change 255 with (Z.ones 8).
  rewrite !Z.land_ones, Z.shiftr_div_pow2 by lia.
  change (2 ^ 4) with 16. change (2 ^ 8) with 256.
  Z.div_mod_to_equations. lia.
Qed.

Lemma hex_digit_low (n : Z) :
  Uuid.hex_digit (Z.land n 15) = Uuid.hex_digit n.
Proof.
  unfold Uuid.hex_digit. rewrite <- Z.land_assoc. reflexivity.
Qed.

Lemma byteToHex_low (b : Z) :
  Uuid.byteToHex (Z.land b 255) = Uuid.byteToHex b.
Proof.
  unfold Uuid.byteToHex. f_equal; [| f_equal].
  - rewrite <- (hex_digit_low (Z.shiftr (Z.land b 255) 4)),
      <- (hex_digit_low (Z.shiftr b 4)).
    rewrite Z.shiftr_land, <- Z.land_assoc. reflexivity.
  - rewrite <- (hex_digit_low (Z.land b 255)), <- (hex_digit_low b).
    rewrite <- Z.land_assoc. reflexivity.
Qed.

Lemma version_stamp (x : Z) :
  Z.land (Z.lor (Z.land x 15) 64) 255 = Z.lor (Z.land x 15) 64 ∧
  Z.lor (Z.land (Z.lor (Z.land x 15) 64) 15) 64 = Z.lor (Z.land x 15) 64.
Proof.
  rewrite !Z.land_lor_distr_l, <- !Z.land_assoc. cbn [Z.land Pos.land].
  split; [reflexivity |]. by rewrite Z.lor_0_r.
Qed.

Lemma variant_stamp (x : Z) :
  Z.land (Z.lor (Z.land x 63) 128) 255 = Z.lor (Z.land x 63) 128 ∧
  Z.lor (Z.land (Z.lor (Z.land x 63) 128) 63) 128 = Z.lor (Z.land x 63) 128.
Proof.
  rewrite !Z.land_lor_distr_l, <- !Z.land_assoc. cbn [Z.land Pos.land].
  split; [reflexivity |]. by rewrite Z.lor_0_r.
Qed.

Lemma append_cons (c : ascii) (s t : string) :
  String c s +:+ t = String c (s +:+ t).
Proof. reflexivity. Qed.

Lemma append_nil (t : string) : "" +:+ t = t.
Proof. reflexivity. Qed.

Lemma read_bytes_byteToHex (n : nat) (b : Z) (s : string) :
  Uuid.read_bytes (S n) (Uuid.byteToHex b +:+ s)
  = r ← Uuid.read_bytes n s; Some (Z.land b 255 :: r.1, r.2).
Proof.
  unfold Uuid.byteToHex. rewrite !append_cons, append_nil.
  cbn [Uuid.read_bytes]. rewrite !unhex_hex_digit. cbn [mbind option_bind].
  by rewrite byte_nibbles.
Qed.

Lemma read_bytes_none (s : string) : Uuid.read_bytes 0 s = Some ([], s).
Proof. reflexivity. Qed.

Lemma read_bytes_last (b : Z) :
  Uuid.read_bytes 1 (Uuid.byteToHex b) = Some ([Z.land b 255], "").
Proof.
  unfold Uuid.byteToHex. cbn [Uuid.read_bytes].
  rewrite !unhex_hex_digit. cbn [mbind option_bind fst snd].
  by rewrite byte_nibbles.
Qed.

Lemma parse_uuidv4 (rnds : list Z) :
  Uuid.parse (Uuid.uuidv4 rnds) = Some (Uuid.stamp rnds).
Proof.
  unfold Uuid.parse, Uuid.uuidv4. cbv zeta.
  repeat (rewrite ?read_bytes_byteToHex, ?read_bytes_last, ?read_bytes_none,
            ?append_cons, ?append_nil;
          cbn [mbind option_bind fst snd Uuid.read_dash Ascii.eqb Bool.eqb
               String.eqb app]).
  unfold Uuid.stamp.
  by rewrite (proj1 (version_stamp _)), (proj1 (variant_stamp _)).
Qed.

Lemma uuidv4_stamp (rnds : list Z) :
  Uuid.uuidv4 (Uuid.stamp rnds) = Uuid.uuidv4 rnds.
Proof.
  unfold Uuid.uuidv4, Uuid.stamp. cbv zeta.
  cbn [Uuid.byte_at nth].
  rewrite !byteToHex_low.
  by rewrite (proj2 (version_stamp _)), (proj2 (variant_stamp _)).
Qed.

(** Two draws give the same UUID exactly when they agree on every bit
    the stamps leave alone. *)
Lemma uuidv4_same_iff (rnds rnds' : list Z) :
  Uuid.uuidv4 rnds' = Uuid.uuidv4 rnds ↔ Uuid.stamp rnds' = Uuid.stamp rnds.
Proof.
  split; intros H.
  - apply (f_equal Uuid.parse) in H. rewrite !parse_uuidv4 in H.
    congruence.
  - by rewrite <- (uuidv4_stamp rnds'), <- (uuidv4_stamp rnds), H.
Qed.

Lemma truthy_string_false (s : option string) :
  Js.truthy_string s = false ↔ s = None ∨ s = Some "".
Proof.
  destruct s as [s|]; simpl.
  - rewrite negb_false_iff, String.eqb_eq. split.
    + intros ->. by right.
    + intros [H | H]; congruence.
  - split; [by left | done].
Qed.

Lemma assign_id_absent (rnds : list Z) (server : McpServer) :
  Js.truthy_string (id server) = false →
  assign_id rnds server = with_id (Uuid.uuidv4 rnds) server.
Proof. intros H. unfold assign_id. by rewrite H. Qed.

Lemma assign_id_present (rnds : list Z) (server : McpServer) :
  Js.truthy_string (id server) = true → assign_id rnds server = server.
Proof. intros H. unfold assign_id. by rewrite H. Qed.

(** After the assignment a record always carries the key it is stored
    under. *)
Lemma assign_id_key (rnds : list Z) (server : McpServer) :
  id (assign_id rnds server)
  = Some (Js.property_key (id (assign_id rnds server))).
Proof.
  unfold assign_id.
  destruct (Js.truthy_string (id server)) eqn:E; simpl; [| reflexivity].
  destruct (id server); [reflexivity | discriminate E].
Qed.

(** ** Facts about plain objects *)

Lemma set_insert {V} (o : gmap string V) (k : string) (v : V) :
  k ≠ "__proto__" ∨ is_Some (o !! k) → Js.set o k v = <[k := v]> o.
Proof.
  intros H. unfold Js.set. rewrite bool_decide_eq_false_2; [done |].
  intros [-> Hn]. destruct H as [H | [z Hz]]; congruence.
Qed.

Lemma truthy_get_own {V} (o : gmap string V) (k : string) :
  is_Some (o !! k) → Js.truthy_get o k = true.
Proof. intros H. unfold Js.truthy_get. by rewrite bool_decide_eq_true_2. Qed.

Lemma truthy_get_absent {V} (o : gmap string V) (k : string) :
  o !! k = None → Js.truthy_get o k = Js.inherited k.
Proof.
  intros H. unfold Js.truthy_get. rewrite bool_decide_eq_false_2; [done |].
  rewrite H. by intros [? ?].
Qed.

(** ** Facts about the resolver and the document store *)

Lemma getActiveVault_pure (windowId : option Z) (w : World) :
  getActiveVault windowId w = (resolved windowId w, w).
Proof.
  unfold resolved, getActiveVault, await, getVaults, reject.
  destruct (vaults w) as [| first rest]; [reflexivity |].
  destruct windowId as [n |]; [| reflexivity].
  destruct (Js.truthy_number (Some n)); [| reflexivity].
  destruct (getActiveVaultForWindow n (first :: rest) w); reflexivity.
Qed.

Lemma readJsonFile_eq (p : string) (w : World) :
  readJsonFile p default_registry w = (Ok (registry_at p w), w).
Proof.
  unfold readJsonFile, registry_at.
  destruct (files w !! p) as [[| d] |]; reflexivity.
Qed.

Lemma updateJsonFile_eq (p : string)
    (f : McpServerRegistry → Result McpServerRegistry) (w : World) :
  updateJsonFile p f default_registry w =
  match f (registry_at p w) with
  | Err e => (Err e, w)
  | Ok d =>
      if bool_decide (p ∈ unwritable w) then (Err (WriteFailed p), w)
      else (Ok d, with_files (<[p := Document d]> (files w)) w)
  end.
Proof.
  unfold updateJsonFile, await. rewrite readJsonFile_eq.
  destruct (f (registry_at p w)) as [d | e]; [| reflexivity].
  unfold writeJsonFile, resolve. by case_bool_decide.
Qed.

Lemma registry_update_eq
    (f : McpServerRegistry → Result McpServerRegistry)
    (windowId : option Z) (w : World) :
  registry_update f windowId w =
  match resolved windowId w with
  | Err e => (Err e, w)
  | Ok v =>
      let p := getMcpServersRegistryPath (vault_path v) in
      match f (registry_at p w) with
      | Err e => (Err e, w)
      | Ok d =>
          if bool_decide (p ∈ unwritable w) then (Err (WriteFailed p), w)
          else (Ok true, with_files (<[p := Document d]> (files w)) w)
      end
  end.
Proof.
  unfold registry_update, await at 1. rewrite getActiveVault_pure.
  destruct (resolved windowId w) as [v | e]; [| reflexivity].
  unfold await. rewrite updateJsonFile_eq. simpl.
  destruct (f _) as [d | e]; [| reflexivity].
  by case_bool_decide.
Qed.

Lemma addMcpServer_body_eq rnds server windowId :
  addMcpServer_body rnds server windowId
  = registry_update (add_mutator (assign_id rnds server)) windowId.
Proof. reflexivity. Qed.

Lemma updateMcpServer_body_eq serverId server windowId :
  updateMcpServer_body serverId server windowId
  = registry_update (update_mutator serverId (with_id serverId server))
                    windowId.
Proof. reflexivity. Qed.

Lemma removeMcpServer_body_eq serverId windowId :
  removeMcpServer_body serverId windowId
  = registry_update (remove_mutator serverId) windowId.
Proof. reflexivity. Qed.

Lemma getMcpServers_body_eq (windowId : option Z) (w : World) :
  getMcpServers_body windowId w =
  match resolved windowId w with
  | Err e => (Err e, w)
  | Ok v =>
      (Ok (servers (registry_at (getMcpServersRegistryPath (vault_path v)) w)),
       w)
  end.
Proof.
  unfold getMcpServers_body, await at 1. rewrite getActiveVault_pure.
  destruct (resolved windowId w) as [v | e]; [| reflexivity].
  unfold await. by rewrite readJsonFile_eq.
Qed.

Lemma resolved_spec (windowId : option Z) (w : World) :
  resolved windowId w = resolveActiveVault_spec windowId w.
Proof.
  unfold resolved, resolveActiveVault_spec, getActiveVault, await, getVaults,
    reject.
  cbn [fst snd]. destruct (vaults w) as [| first rest]; [reflexivity |].
  destruct windowId as [n |]; [| reflexivity].
  unfold Js.truthy_number. case_bool_decide as Hn.
  - subst n. reflexivity.
  - apply Z.eqb_neq in Hn. rewrite Hn. cbn [negb].
    by destruct (getActiveVaultForWindow n (first :: rest) w).
Qed.

(** Resolution looks at the vaults and the association only. *)
Lemma resolved_env (windowId : option Z) (w w' : World) :
  vaults w' = vaults w → windowVaults w' = windowVaults w →
  resolved windowId w' = resolved windowId w.
Proof.
  intros Hv Hm. rewrite !resolved_spec. unfold resolveActiveVault_spec.
  rewrite Hv. unfold getActiveVaultForWindow. by rewrite Hm.
Qed.

Lemma listed_eq (windowId : option Z) (w : World) :
  listed windowId w =
  match resolved windowId w with
  | Err _ => ∅
  | Ok v => servers (registry_at (getMcpServersRegistryPath (vault_path v)) w)
  end.
Proof.
  unfold listed, getMcpServers, try_catch. rewrite getMcpServers_body_eq.
  by destruct (resolved windowId w).
Qed.

(** * Properties *)

(** ** Error containment at the public boundary *)

Lemma registry_update_settles f windowId msg (w : World) :
  settles_bool (registry_update f windowId) msg
               (try_catch (registry_update f windowId) msg false) w.
Proof.
  unfold settles_bool, try_catch. rewrite registry_update_eq.
  destruct (resolved windowId w) as [v | e]; [| right; eauto].
  cbn zeta. destruct (f _) as [d | e]; [| right; eauto].
  case_bool_decide; [right | left]; eauto.
Qed.

(** C1. No public registry operation raises.  However its body ends, by
    a vault that cannot be resolved, a write that fails, a mutator that
    throws, [getMcpServers] answers with a mapping, the empty one when
    the body failed, and [addMcpServer], [updateMcpServer] and
    [removeMcpServer] answer [true] when the body succeeded and [false],
    after logging the error, when it failed. *)
Theorem public_operations_never_raise
    (w : World) (windowId : option Z) (rnds : list Z)
    (server : McpServer) (serverId : string) :
  ((∃ s w', getMcpServers_body windowId w = (Ok s, w') ∧
            getMcpServers windowId w = (s, w')) ∨
   (∃ e w', getMcpServers_body windowId w = (Err e, w') ∧
            getMcpServers windowId w
            = (∅, console_error "Failed to get MCP servers:" e w'))) ∧
  settles_bool (addMcpServer_body rnds server windowId)
               "Failed to add MCP server:"
               (addMcpServer rnds server windowId) w ∧
  settles_bool (updateMcpServer_body serverId server windowId)
               "Failed to update MCP server:"
               (updateMcpServer serverId server windowId) w ∧
  settles_bool (removeMcpServer_body serverId windowId)
               "Failed to remove MCP server:"
               (removeMcpServer serverId windowId) w.
Proof.
  split; [| repeat split].
  - unfold getMcpServers, try_catch.
    destruct (getMcpServers_body windowId w) as [[s | e] w'] eqn:E;
      [left | right]; eauto.
  - unfold addMcpServer. rewrite addMcpServer_body_eq.
    apply registry_update_settles.
  - unfold updateMcpServer. rewrite updateMcpServer_body_eq.
    apply registry_update_settles.
  - unfold removeMcpServer. rewrite removeMcpServer_body_eq.
    apply registry_update_settles.
Qed.

(** The failures named by the specification, one by one. *)

Lemma no_vaults_defaults (w : World) (windowId : option Z) (rnds : list Z)
    (server : McpServer) (serverId : string) :
  vaults w = [] →
  fst (getMcpServers windowId w) = ∅ ∧
  fst (addMcpServer rnds server windowId w) = false ∧
  fst (updateMcpServer serverId server windowId w) = false ∧
  fst (removeMcpServer serverId windowId w) = false.
Proof.
  intros Hv.
  assert (resolved windowId w = Err NoVaultsFound) as Hr.
  { rewrite resolved_spec. unfold resolveActiveVault_spec. by rewrite Hv. }
  unfold getMcpServers, addMcpServer, updateMcpServer, removeMcpServer,
    try_catch.
  rewrite getMcpServers_body_eq, addMcpServer_body_eq,
    updateMcpServer_body_eq, removeMcpServer_body_eq, !registry_update_eq, Hr.
  done.
Qed.

Lemma write_failure_is_false (w : World) (windowId : option Z) (v : Vault)
    (f : McpServerRegistry → Result McpServerRegistry) (msg : string) :
  resolved windowId w = Ok v →
  getMcpServersRegistryPath (vault_path v) ∈ unwritable w →
  fst (try_catch (registry_update f windowId) msg false w) = false ∧
  files (snd (try_catch (registry_update f windowId) msg false w)) = files w.
Proof.
  intros Hr Hw. unfold try_catch. rewrite registry_update_eq, Hr. cbn zeta.
  destruct (f _) as [d | e]; [| done].
  by rewrite bool_decide_eq_true_2.
Qed.

(** ** Vault resolution *)

(** C8, as stated, fails for the window id [0]: it is supplied, the
    association yields the second vault for it, and resolution still
    answers with the first vault. *)
Lemma getActiveVault_ignores_window_zero :
  getActiveVaultForWindow 0 (vaults Examples.fresh) Examples.fresh
  = Some Examples.work ∧
  resolved (Some 0) Examples.fresh = Ok Examples.notes ∧
  Examples.notes ≠ Examples.work.
Proof. split; [| split]; [reflexivity | reflexivity | discriminate]. Qed.

(** C8, amended.  Resolution fails with [NoVaultsFound] exactly when no
    vault is known, and fails in no other way; otherwise a supplied,
    non-zero window id whose lookup yields a vault gives that vault, and
    every other call, window id [0] included, gives the first known
    vault.  The world is left as it was. *)
Theorem getActiveVault_resolution (windowId : option Z) (w : World) :
  (resolved windowId w = Err NoVaultsFound ↔ vaults w = []) ∧
  (∀ e, resolved windowId w = Err e → e = NoVaultsFound) ∧
  getActiveVault windowId w = (resolveActiveVault_spec windowId w, w).
Proof.
  rewrite getActiveVault_pure, resolved_spec.
  unfold resolveActiveVault_spec.
  destruct (vaults w) as [| first rest].
  - repeat split; congruence.
  - assert (∃ v, match windowId with
                 | Some n =>
                     if bool_decide (n = 0) then Ok first
                     else match getActiveVaultForWindow n (first :: rest) w with
                          | Some v => Ok v
                          | None => Ok first
                          end
                 | None => Ok first
                 end = Ok v) as [v ->].
    { destruct windowId as [n |]; [| eauto].
      case_bool_decide; [eauto |].
      destruct (getActiveVaultForWindow _ _ _); eauto. }
    repeat split; congruence.
Qed.

(** C9.  A call with window id [0] resolves exactly as a call without
    window id: the association is not consulted (any other association
    gives the same vault), the first known vault is the answer, and each
    public operation behaves as if no window id had been passed. *)
Theorem windowId_zero_is_no_windowId (w : World) :
  getActiveVault (Some 0) w = getActiveVault None w ∧
  (∀ m, resolved (Some 0) (with_windowVaults m w) = resolved (Some 0) w) ∧
  resolved (Some 0) w
  = match vaults w with
    | [] => Err NoVaultsFound
    | first :: _ => Ok first
    end ∧
  getMcpServers (Some 0) w = getMcpServers None w ∧
  (∀ rnds server,
     addMcpServer rnds server (Some 0) w = addMcpServer rnds server None w) ∧
  (∀ serverId server,
     updateMcpServer serverId server (Some 0) w
     = updateMcpServer serverId server None w) ∧
  (∀ serverId,
     removeMcpServer serverId (Some 0) w = removeMcpServer serverId None w).
Proof.
  repeat split; try reflexivity.
  - intros m. rewrite !resolved_spec. reflexivity.
  - rewrite resolved_spec. reflexivity.
Qed.

(** ** The key/id invariant *)

Lemma keys_match_ids_default : keys_match_ids default_registry.
Proof. intros k r H. cbn in H. by rewrite lookup_empty in H. Qed.

Lemma keys_match_ids_set (o : gmap string McpServer) (k : string)
    (v : McpServer) :
  keys_match_ids {| servers := o |} → id v = Some k →
  keys_match_ids {| servers := Js.set o k v |}.
Proof.
  intros Ho Hv k' r. unfold Js.set. cbn [servers].
  case_bool_decide; [apply Ho |].
  rewrite lookup_insert. case_decide as Hk.
  - intros [= <-]. by subst k'.
  - apply Ho.
Qed.

Lemma keys_match_ids_delete (o : gmap string McpServer) (k : string) :
  keys_match_ids {| servers := o |} →
  keys_match_ids {| servers := Js.delete_key o k |}.
Proof.
  intros Ho k' r. unfold Js.delete_key. cbn [servers].
  rewrite lookup_delete. case_decide; [done | apply Ho].
Qed.

Lemma add_mutator_keeps (rnds : list Z) (server : McpServer)
    (d d' : McpServerRegistry) :
  keys_match_ids d → add_mutator (assign_id rnds server) d = Ok d' →
  keys_match_ids d'.
Proof.
  intros Hd [= <-]. destruct d as [o].
  apply keys_match_ids_set; [exact Hd | apply assign_id_key].
Qed.

Lemma update_mutator_keeps (serverId : string) (server : McpServer)
    (d d' : McpServerRegistry) :
  keys_match_ids d →
  update_mutator serverId (with_id serverId server) d = Ok d' →
  keys_match_ids d'.
Proof.
  intros Hd. unfold update_mutator. destruct (negb _); [discriminate |].
  intros [= <-]. destruct d as [o]. by apply keys_match_ids_set.
Qed.

Lemma remove_mutator_keeps (serverId : string) (d d' : McpServerRegistry) :
  keys_match_ids d → remove_mutator serverId d = Ok d' → keys_match_ids d'.
Proof.
  intros Hd. unfold remove_mutator. destruct (negb _); [discriminate |].
  intros [= <-]. destruct d as [o]. by apply keys_match_ids_delete.
Qed.

Lemma registry_at_write (p q : string) (d : McpServerRegistry) (w : World) :
  registry_at q (with_files (<[p := Document d]> (files w)) w)
  = if decide (p = q) then d else registry_at q w.
Proof.
  unfold registry_at, with_files. cbn [files].
  rewrite lookup_insert. by case_decide.
Qed.

Lemma registry_at_files (q : string) (w w' : World) :
  files w' = files w → registry_at q w' = registry_at q w.
Proof. intros H. unfold registry_at. by rewrite H. Qed.

(** A property of documents that the default document has and every
    mutator keeps holds of every registry of every reachable world. *)
Section Preservation.
Variable P : McpServerRegistry → Prop.
Hypothesis P_default : P default_registry.
Hypothesis P_add : ∀ rnds server d d',
  P d → add_mutator (assign_id rnds server) d = Ok d' → P d'.
Hypothesis P_update : ∀ serverId server d d',
  P d → update_mutator serverId (with_id serverId server) d = Ok d' → P d'.
Hypothesis P_remove : ∀ serverId d d',
  P d → remove_mutator serverId d = Ok d' → P d'.

Lemma registry_update_keeps
    (f : McpServerRegistry → Result McpServerRegistry)
    (windowId : option Z) (msg : string) (w : World) :
  (∀ d d', P d → f d = Ok d' → P d') →
  all_registries P w →
  all_registries P (snd (try_catch (registry_update f windowId) msg false w)).
Proof.
  intros Hf Hw q. unfold try_catch. rewrite registry_update_eq.
  destruct (resolved windowId w) as [v | e]; [| apply Hw].
  cbn zeta. destruct (f _) as [d | e] eqn:E; [| apply Hw].
  case_bool_decide; [apply Hw |].
  cbn [snd]. rewrite registry_at_write.
  case_decide; [| apply Hw]. eapply Hf; [apply Hw | exact E].
Qed.

Lemma run_op_keeps (o : Op) (w : World) :
  all_registries P w → all_registries P (run_op o w).
Proof.
  intros Hw.
  destruct o as [rnds server wid | serverId server wid | serverId wid];
    cbn [run_op].
  - unfold addMcpServer. rewrite addMcpServer_body_eq.
    apply registry_update_keeps; [apply P_add | exact Hw].
  - unfold updateMcpServer. rewrite updateMcpServer_body_eq.
    apply registry_update_keeps; [apply P_update | exact Hw].
  - unfold removeMcpServer. rewrite removeMcpServer_body_eq.
    apply registry_update_keeps; [apply P_remove | exact Hw].
Qed.

Lemma reachable_all_registries (w : World) :
  reachable w → all_registries P w.
Proof.
  induction 1 as [w Hd | o w _ IH | w w' _ IH Hf].
  - intros p. by rewrite Hd.
  - by apply run_op_keeps.
  - intros p. rewrite (registry_at_files p w w' Hf). apply IH.
Qed.
End Preservation.

(** C2.  In every world reached from empty registries by any sequence of
    [addMcpServer], [updateMcpServer] and [removeMcpServer], each
    registry document, and so each mapping [getMcpServers] lists, stores
    under every key [k] a record whose [id] is [k]. *)
Theorem keys_equal_ids (w : World) (H : reachable w) :
  (∀ p k r, servers (registry_at p w) !! k = Some r → id r = Some k) ∧
  (∀ windowId k r, listed windowId w !! k = Some r → id r = Some k).
Proof.
  pose proof (reachable_all_registries keys_match_ids
    keys_match_ids_default add_mutator_keeps update_mutator_keeps
    remove_mutator_keeps w H) as Hm.
  split.
  - intros p. apply Hm.
  - intros windowId k r. rewrite listed_eq.
    destruct (resolved windowId w) as [v | e]; [apply Hm |].
    by rewrite lookup_empty.
Qed.

(** ** Outcomes of the writing operations *)

Lemma registry_update_outcome
    (f : McpServerRegistry → Result McpServerRegistry)
    (windowId : option Z) (msg : string) (w : World) :
  try_catch (registry_update f windowId) msg false w =
  match resolved windowId w with
  | Err e => (false, console_error msg e w)
  | Ok v =>
      let p := getMcpServersRegistryPath (vault_path v) in
      match f (registry_at p w) with
      | Err e => (false, console_error msg e w)
      | Ok d =>
          if bool_decide (p ∈ unwritable w)
          then (false, console_error msg (WriteFailed p) w)
          else (true, with_files (<[p := Document d]> (files w)) w)
      end
  end.
Proof.
  unfold try_catch. rewrite registry_update_eq.
  destruct (resolved windowId w) as [v | e]; [| reflexivity].
  cbn zeta. destruct (f _) as [d | e]; [| reflexivity].
  by case_bool_decide.
Qed.

Lemma registry_update_written
    (f : McpServerRegistry → Result McpServerRegistry)
    (windowId : option Z) (msg : string) (w : World) (v : Vault)
    (d : McpServerRegistry) :
  resolved windowId w = Ok v →
  f (registry_at (getMcpServersRegistryPath (vault_path v)) w) = Ok d →
  getMcpServersRegistryPath (vault_path v) ∉ unwritable w →
  try_catch (registry_update f windowId) msg false w
  = (true, with_files
             (<[getMcpServersRegistryPath (vault_path v) := Document d]>
                (files w)) w).
Proof.
  intros Hr Hf Hw. rewrite registry_update_outcome, Hr. cbn zeta.
  rewrite Hf. by rewrite bool_decide_eq_false_2.
Qed.

Lemma registry_update_failed
    (f : McpServerRegistry → Result McpServerRegistry)
    (windowId : option Z) (msg : string) (w : World) :
  (∃ e, resolved windowId w = Err e) ∨
  (∃ v, resolved windowId w = Ok v ∧
        (getMcpServersRegistryPath (vault_path v) ∈ unwritable w ∨
         ∃ e, f (registry_at (getMcpServersRegistryPath (vault_path v)) w)
              = Err e)) →
  fst (try_catch (registry_update f windowId) msg false w) = false ∧
  files (snd (try_catch (registry_update f windowId) msg false w)) = files w.
Proof.
  rewrite registry_update_outcome.
  intros [[e ->] | [v [-> H]]]; [done |]. cbn zeta.
  destruct (f _) as [d | e]; [| done].
  destruct H as [H | [e H]]; [| discriminate H].
  by rewrite bool_decide_eq_true_2.
Qed.

Lemma listed_written (windowId : option Z) (w : World) (v : Vault)
    (d : McpServerRegistry) :
  resolved windowId w = Ok v →
  listed windowId
    (with_files (<[getMcpServersRegistryPath (vault_path v) := Document d]>
                   (files w)) w)
  = servers d.
Proof.
  intros Hr. rewrite listed_eq.
  rewrite (resolved_env windowId w (with_files _ w)) by reflexivity.
  rewrite Hr, registry_at_write. by rewrite decide_True.
Qed.

Lemma listed_resolved (windowId : option Z) (w : World) (v : Vault) :
  resolved windowId w = Ok v →
  listed windowId w
  = servers (registry_at (getMcpServersRegistryPath (vault_path v)) w).
Proof. intros Hr. by rewrite listed_eq, Hr. Qed.

(** What a successful [addMcpServer] of a record without usable id
    leaves behind. *)
Lemma addMcpServer_generates (rnds : list Z) (server : McpServer)
    (windowId : option Z) (w : World) (v : Vault) :
  Js.truthy_string (id server) = false →
  resolved windowId w = Ok v →
  getMcpServersRegistryPath (vault_path v) ∉ unwritable w →
  addMcpServer rnds server windowId w
  = (true,
     with_files
       (<[getMcpServersRegistryPath (vault_path v) :=
            Document {| servers :=
              <[Uuid.uuidv4 rnds := with_id (Uuid.uuidv4 rnds) server]>
                (servers (registry_at
                            (getMcpServersRegistryPath (vault_path v)) w)) |}]>
          (files w)) w).
Proof.
  intros Hid Hr Hw. unfold addMcpServer. rewrite addMcpServer_body_eq.
  apply registry_update_written; [exact Hr | | exact Hw].
  rewrite (assign_id_absent _ _ Hid). unfold add_mutator. cbn [id with_id].
  cbn [Js.property_key]. rewrite set_insert; [reflexivity |].
  left. intros E. pose proof (uuidv4_length rnds) as L. rewrite E in L.
  discriminate L.
Qed.

(** ** Adding a record *)




Lemma assign_id_key_nonempty (rnds : list Z) (server : McpServer) :
  Js.property_key (id (assign_id rnds server)) ≠ "".
Proof.
  unfold assign_id. destruct (Js.truthy_string (id server)) eqn:E; cbn.
  - destruct (id server) as [s |]; [| discriminate E]. cbn in *.
    apply negb_true_iff in E. by apply String.eqb_neq in E.
  - apply uuidv4_nonempty.
Qed.

Lemma set_lookup_ne {V} (o : gmap string V) (k k' : string) (v : V) :
  k ≠ k' → Js.set o k v !! k' = o !! k'.
Proof.
  intros H. unfold Js.set. case_bool_decide; [done |].
  by rewrite lookup_insert_ne.
Qed.



(** No sequence of operations ever creates the key [""]. *)
Lemma empty_string_never_a_key (w : World) :
  reachable w → ∀ p, servers (registry_at p w) !! "" = None.
Proof.
  apply (reachable_all_registries (λ d, servers d !! "" = None)).
  - reflexivity.
  - intros rnds server d d' Hd [= <-]. cbn [servers].
    rewrite set_lookup_ne; [exact Hd | apply assign_id_key_nonempty].
  - intros serverId server d d' Hd. unfold update_mutator.
    destruct (Js.truthy_get (servers d) serverId) eqn:E; [| discriminate].
    intros [= <-]. cbn [servers negb].
    destruct (decide (serverId = "")) as [-> | Hne].
    + rewrite truthy_get_absent in E by exact Hd. discriminate E.
    + by rewrite set_lookup_ne.
  - intros serverId d d' Hd. unfold remove_mutator.
    destruct (negb _); [discriminate |]. intros [= <-]. cbn [servers].
    unfold Js.delete_key. rewrite lookup_delete. by case_decide.
Qed.

(** ** Updating a record *)

(** C5.  When [serverId] is a key of the resolved vault's mapping and the
    registry file can be written, [updateMcpServer] answers [true] and
    the mapping afterwards is the old one with [serverId] bound to the
    given record, its [id] set to [serverId] whatever it was; every
    other key keeps its record. *)
Theorem updateMcpServer_existing (serverId : string) (server : McpServer)
    (windowId : option Z) (w : World) (v : Vault) :
  resolved windowId w = Ok v →
  is_Some (listed windowId w !! serverId) →
  getMcpServersRegistryPath (vault_path v) ∉ unwritable w →
  fst (updateMcpServer serverId server windowId w) = true ∧
  listed windowId (snd (updateMcpServer serverId server windowId w))
  = <[serverId := with_id serverId server]> (listed windowId w) ∧
  listed windowId (snd (updateMcpServer serverId server windowId w))
    !! serverId
  = Some {| id := Some serverId; config := config server |} ∧
  (∀ k, k ≠ serverId →
        listed windowId (snd (updateMcpServer serverId server windowId w)) !! k
        = listed windowId w !! k).
Proof.
  intros Hr Hk Hw. rewrite (listed_resolved _ _ _ Hr) in *.
  set (p := getMcpServersRegistryPath (vault_path v)) in *.
  assert (updateMcpServer serverId server windowId w
          = (true, with_files
               (<[p := Document {| servers :=
                    <[serverId := with_id serverId server]>
                      (servers (registry_at p w)) |}]> (files w)) w)) as ->.
  { unfold updateMcpServer. rewrite updateMcpServer_body_eq.
    apply registry_update_written; [exact Hr | | exact Hw].
    fold p. unfold update_mutator.
    rewrite (truthy_get_own _ _ Hk). cbn [negb].
    rewrite set_insert; [reflexivity | by right]. }
  cbn [fst snd]. unfold p. rewrite (listed_written _ _ _ _ Hr). cbn [servers].
  repeat split.
  - by rewrite lookup_insert_eq.
  - intros k Hne. by rewrite lookup_insert_ne.
Qed.

Lemma updateMcpServer_existing_witness :
  resolved None Examples.stocked = Ok Examples.notes ∧
  is_Some (listed None Examples.stocked !! "a") ∧
  fst (updateMcpServer "a" Examples.x None Examples.stocked) = true ∧
  listed None (snd (updateMcpServer "a" Examples.x None Examples.stocked))
    !! "a"
  = Some {| id := Some "a"; config := config Examples.x |}.
Proof.
  assert (is_Some (listed None Examples.stocked !! "a")) as Hk.
  { exists (with_id "a" Examples.y). vm_compute. reflexivity. }
  split; [reflexivity |]. split; [exact Hk |].
  destruct (updateMcpServer_existing "a" Examples.x None Examples.stocked
              Examples.notes eq_refl Hk (not_elem_of_empty _))
    as (H1 & _ & H3 & _).
  split; [exact H1 | exact H3].
Defined.

(** An identifier that is no key and no inherited name is refused: the
    answer is [false] and no file changes. *)
Lemma updateMcpServer_missing (serverId : string) (server : McpServer)
    (windowId : option Z) (w : World) :
  listed windowId w !! serverId = None →
  Js.inherited serverId = false →
  fst (updateMcpServer serverId server windowId w) = false ∧
  files (snd (updateMcpServer serverId server windowId w)) = files w.
Proof.
  intros Hk Hi. unfold updateMcpServer. rewrite updateMcpServer_body_eq.
  apply registry_update_failed. rewrite listed_eq in Hk.
  destruct (resolved windowId w) as [v | e]; [right | left; eauto].
  exists v. split; [reflexivity |]. right.
  exists (ServerNotFound serverId). unfold update_mutator.
  by rewrite (truthy_get_absent _ _ Hk), Hi.
Qed.

(** A name inherited from [Object.prototype] passes the existence test
    whether or not a record is stored under it. *)
Lemma truthy_get_inherited {V} (o : gmap string V) (k : string) :
  Js.inherited k = true → Js.truthy_get o k = true.
Proof. intros H. unfold Js.truthy_get. rewrite H. apply orb_true_r. Qed.

Lemma updateMcpServer_inherited_name (serverId : string) (server : McpServer)
    (windowId : option Z) (w : World) (v : Vault) :
  resolved windowId w = Ok v →
  Js.inherited serverId = true →
  getMcpServersRegistryPath (vault_path v) ∉ unwritable w →
  fst (updateMcpServer serverId server windowId w) = true.
Proof.
  intros Hr Hi Hw. unfold updateMcpServer. rewrite updateMcpServer_body_eq.
  erewrite registry_update_written; [reflexivity | exact Hr | | exact Hw].
  unfold update_mutator. by rewrite (truthy_get_inherited _ _ Hi).
Qed.

Lemma removeMcpServer_inherited_name (serverId : string)
    (windowId : option Z) (w : World) (v : Vault) :
  resolved windowId w = Ok v →
  Js.inherited serverId = true →
  getMcpServersRegistryPath (vault_path v) ∉ unwritable w →
  fst (removeMcpServer serverId windowId w) = true.
Proof.
  intros Hr Hi Hw. unfold removeMcpServer. rewrite removeMcpServer_body_eq.
  erewrite registry_update_written; [reflexivity | exact Hr | | exact Hw].
  unfold remove_mutator. by rewrite (truthy_get_inherited _ _ Hi).
Qed.

(** C4 fails on the code.  On a vault without registry file no id is
    present, yet [updateMcpServer "constructor"] does not answer [false]:
    the existence test [!registry.servers[serverId]] reads the member
    that the empty mapping inherits from [Object.prototype], finds it
    truthy, and the record is inserted under the absent id and written
    to the file. *)
Theorem updateMcpServer_inserts_under_inherited_name :
  listed None Examples.fresh !! "constructor" = None ∧
  fst (updateMcpServer "constructor" Examples.x None Examples.fresh) = true ∧
  files (snd (updateMcpServer "constructor" Examples.x None Examples.fresh))
    !! Examples.notes_registry
  = Some (Document {| servers :=
            {[ "constructor" := with_id "constructor" Examples.x ]} |}) ∧
  listed None
    (snd (updateMcpServer "constructor" Examples.x None Examples.fresh))
    !! "constructor"
  = Some (with_id "constructor" Examples.x).
Proof. repeat split; vm_compute; reflexivity. Qed.

(** ** Removing a record *)

Lemma removeMcpServer_missing (serverId : string) (windowId : option Z)
    (w : World) :
  listed windowId w !! serverId = None →
  Js.inherited serverId = false →
  fst (removeMcpServer serverId windowId w) = false ∧
  files (snd (removeMcpServer serverId windowId w)) = files w.
Proof.
  intros Hk Hi. unfold removeMcpServer. rewrite removeMcpServer_body_eq.
  apply registry_update_failed. rewrite listed_eq in Hk.
  destruct (resolved windowId w) as [v | e]; [right | left; eauto].
  exists v. split; [reflexivity |]. right.
  exists (ServerNotFound serverId). unfold remove_mutator.
  by rewrite (truthy_get_absent _ _ Hk), Hi.
Qed.

(** A present key is deleted, and only that key. *)
Lemma removeMcpServer_existing (serverId : string) (windowId : option Z)
    (w : World) (v : Vault) :
  resolved windowId w = Ok v →
  is_Some (listed windowId w !! serverId) →
  getMcpServersRegistryPath (vault_path v) ∉ unwritable w →
  fst (removeMcpServer serverId windowId w) = true ∧
  listed windowId (snd (removeMcpServer serverId windowId w))
  = delete serverId (listed windowId w) ∧
  listed windowId (snd (removeMcpServer serverId windowId w)) !! serverId
  = None ∧
  (∀ k, k ≠ serverId →
        listed windowId (snd (removeMcpServer serverId windowId w)) !! k
        = listed windowId w !! k).
Proof.
  intros Hr Hk Hw. rewrite (listed_resolved _ _ _ Hr) in *.
  set (p := getMcpServersRegistryPath (vault_path v)) in *.
  assert (removeMcpServer serverId windowId w
          = (true, with_files
               (<[p := Document {| servers :=
                    delete serverId (servers (registry_at p w)) |}]>
                  (files w)) w)) as ->.
  { unfold removeMcpServer. rewrite removeMcpServer_body_eq.
    apply registry_update_written; [exact Hr | | exact Hw].
    fold p. unfold remove_mutator.
    by rewrite (truthy_get_own _ _ Hk). }
  cbn [fst snd]. unfold p. rewrite (listed_written _ _ _ _ Hr). cbn [servers].
  repeat split.
  - by rewrite lookup_delete_eq.
  - intros k Hne. by rewrite lookup_delete_ne.
Qed.

(** C6 fails on the code in its first half.  On a vault without registry
    file no id is present, yet [removeMcpServer "toString"] answers
    [true]: the existence test reads the inherited member, the [delete]
    finds nothing to delete, and the unchanged mapping is written to the
    file. *)
Theorem removeMcpServer_accepts_inherited_name :
  listed None Examples.fresh !! "toString" = None ∧
  fst (removeMcpServer "toString" None Examples.fresh) = true ∧
  files (snd (removeMcpServer "toString" None Examples.fresh))
    !! Examples.notes_registry
  = Some (Document default_registry).
Proof. repeat split; vm_compute; reflexivity. Qed.

(** ** Reading an absent or malformed registry *)

(** C7.  When the registry file of a vault path is absent or does not
    pass the schema, reading it yields the default document
    [{ servers: {} }] and raises nothing, and [getMcpServers] on a vault
    with that path answers the empty mapping, leaving the world as it
    was. *)
Theorem absent_or_malformed_reads_default (vaultPath : string) (w : World) :
  files w !! getMcpServersRegistryPath vaultPath = None ∨
  files w !! getMcpServersRegistryPath vaultPath = Some Malformed →
  readJsonFile (getMcpServersRegistryPath vaultPath) default_registry w
  = (Ok default_registry, w) ∧
  (∀ windowId v,
     resolved windowId w = Ok v → vault_path v = vaultPath →
     getMcpServers windowId w = (∅, w)).
Proof.
  intros H.
  assert (registry_at (getMcpServersRegistryPath vaultPath) w
          = default_registry) as Hd.
  { unfold registry_at. by destruct H as [-> | ->]. }
  split.
  - unfold readJsonFile. by destruct H as [-> | ->].
  - intros windowId v Hr <-. unfold getMcpServers, try_catch.
    by rewrite getMcpServers_body_eq, Hr, Hd.
Qed.

Lemma absent_or_malformed_reads_default_witness :
  files Examples.garbled !! getMcpServersRegistryPath "/home/u/notes"
  = Some Malformed ∧
  getMcpServers None Examples.garbled = (∅, Examples.garbled) ∧
  files Examples.fresh !! getMcpServersRegistryPath "/home/u/work" = None ∧
  getMcpServers (Some 7) Examples.fresh = (∅, Examples.fresh).
Proof.
  assert (files Examples.garbled !! getMcpServersRegistryPath "/home/u/notes"
          = Some Malformed) as Hm by (vm_compute; reflexivity).
  assert (files Examples.fresh !! getMcpServersRegistryPath "/home/u/work"
          = None) as Ha by (vm_compute; reflexivity).
  split; [exact Hm |]. split; [| split; [exact Ha |]].
  - apply (absent_or_malformed_reads_default "/home/u/notes" Examples.garbled
             (or_intror Hm))
      with (v := Examples.notes); reflexivity.
  - apply (absent_or_malformed_reads_default "/home/u/work" Examples.fresh
             (or_introl Ha))
      with (v := Examples.work); reflexivity.
Defined.

(** ** Witnesses *)

Lemma fresh_reachable : reachable Examples.fresh.
Proof.
  apply reach_default. intros p. unfold registry_at.
  change (files Examples.fresh) with (∅ : gmap string FileContent).
  by rewrite lookup_empty.
Qed.

Lemma keys_equal_ids_witness :
  reachable Examples.busy ∧
  (∀ k r, listed None Examples.busy !! k = Some r → id r = Some k).
Proof.
  assert (reachable Examples.busy) as H.
  { do 3 apply reach_op. exact fresh_reachable. }
  split; [exact H |]. apply (keys_equal_ids _ H).
Defined.

Lemma getActiveVault_resolution_witness :
  vaults Examples.no_vaults = [] ∧
  resolved (Some 7) Examples.no_vaults = Err NoVaultsFound ∧
  NoVaultsFound = NoVaultsFound.
Proof.
  split; [reflexivity |].
  pose proof (getActiveVault_resolution (Some 7) Examples.no_vaults)
    as (Hiff & Honly & _).
  assert (resolved (Some 7) Examples.no_vaults = Err NoVaultsFound) as Hr
    by (apply Hiff; reflexivity).
  split; [exact Hr | exact (Honly NoVaultsFound Hr)].
Defined.

Lemma windowId_zero_is_no_windowId_witness :
  getActiveVaultForWindow 0 (vaults Examples.fresh) Examples.fresh
  = Some Examples.work ∧
  resolved (Some 0) Examples.fresh = Ok Examples.notes.
Proof.
  split; [reflexivity |].
  pose proof (windowId_zero_is_no_windowId Examples.fresh) as (_ & _ & H & _).
  exact H.
Defined.

(** * Further properties of the registry accessor *)

Lemma apply_op_eq (o : Op) (w : World) :
  (op_answer o w, run_op o w)
  = try_catch (registry_update (op_mutator o) (op_window o))
              (op_message o) false w.
Proof.
  destruct o as [rnds server wid | serverId server wid | serverId wid];
    cbn [op_answer run_op op_mutator op_window op_message].
  - unfold addMcpServer. rewrite addMcpServer_body_eq.
    by destruct (try_catch _ _ _ _).
  - unfold updateMcpServer. rewrite updateMcpServer_body_eq.
    by destruct (try_catch _ _ _ _).
  - unfold removeMcpServer. rewrite removeMcpServer_body_eq.
    by destruct (try_catch _ _ _ _).
Qed.

Lemma apply_op_outcome (o : Op) (w : World) :
  (op_answer o w, run_op o w) =
  match resolved (op_window o) w with
  | Err e => (false, console_error (op_message o) e w)
  | Ok v =>
      let p := getMcpServersRegistryPath (vault_path v) in
      match op_mutator o (registry_at p w) with
      | Err e => (false, console_error (op_message o) e w)
      | Ok d =>
          if bool_decide (p ∈ unwritable w)
          then (false, console_error (op_message o) (WriteFailed p) w)
          else (true, with_files (<[p := Document d]> (files w)) w)
      end
  end.
Proof. rewrite apply_op_eq. apply registry_update_outcome. Qed.

(** X1.  [getMcpServers] only reads.  With at least one known vault it
    leaves the world exactly as it was; with none it answers the empty
    mapping and adds one [NoVaultsFound] entry to the console, nothing
    else. *)
Theorem getMcpServers_only_reads (windowId : option Z) (w : World) :
  match vaults w with
  | [] =>
      getMcpServers windowId w
      = (∅, console_error "Failed to get MCP servers:" NoVaultsFound w)
  | _ :: _ => snd (getMcpServers windowId w) = w
  end.
Proof.
  unfold getMcpServers, try_catch.
  rewrite getMcpServers_body_eq, resolved_spec. unfold resolveActiveVault_spec.
  destruct (vaults w) as [| first rest]; [reflexivity |].
  destruct windowId as [n |]; [| reflexivity].
  case_bool_decide; [reflexivity |].
  by destruct (getActiveVaultForWindow n (first :: rest) w).
Qed.

(** X2.  A writing operation changes at most one file, the registry of
    the vault it resolved, and never the known vaults, the window
    association or the write permissions. *)
Theorem writers_touch_one_file (o : Op) (w : World) :
  vaults (run_op o w) = vaults w ∧
  windowVaults (run_op o w) = windowVaults w ∧
  unwritable (run_op o w) = unwritable w ∧
  (∀ q, files (run_op o w) !! q ≠ files w !! q →
        ∃ v, resolved (op_window o) w = Ok v ∧
             q = getMcpServersRegistryPath (vault_path v)).
Proof.
  pose proof (apply_op_outcome o w) as H.
  destruct (resolved (op_window o) w) as [v | e].
  - cbn zeta in H.
    destruct (op_mutator o _) as [d | e];
      [case_bool_decide |]; injection H as _ ->; repeat split; try done.
    intros q Hq. exists v. split; [reflexivity |].
    cbn [files with_files] in Hq.
    destruct (decide (getMcpServersRegistryPath (vault_path v) = q)) as [E | E];
      [by symmetry |].
    by rewrite lookup_insert_ne in Hq.
  - injection H as _ ->. repeat split; done.
Qed.

Lemma writers_touch_one_file_witness :
  files (run_op (Add [] Examples.x None) Examples.fresh)
    !! Examples.notes_registry
  ≠ files Examples.fresh !! Examples.notes_registry ∧
  ∃ v, resolved None Examples.fresh = Ok v ∧
       Examples.notes_registry = getMcpServersRegistryPath (vault_path v).
Proof.
  assert (files (run_op (Add [] Examples.x None) Examples.fresh)
            !! Examples.notes_registry
          ≠ files Examples.fresh !! Examples.notes_registry) as Hne
    by (vm_compute; discriminate).
  split; [exact Hne |].
  exact (proj2 (proj2 (proj2
           (writers_touch_one_file (Add [] Examples.x None) Examples.fresh)))
           Examples.notes_registry Hne).
Defined.

(** X3.  The answer of a writing operation tells what happened.  [true]:
    nothing was logged and the registry file of the resolved vault now
    holds a valid document.  [false]: exactly one entry, carrying the
    operation's message, was added to the console; unless that entry is
    a failed write, to the registry file of the resolved vault, nothing
    was written and no file changed. *)
Theorem answer_tells_outcome (o : Op) (w : World) :
  if op_answer o w
  then console (run_op o w) = console w ∧
       ∃ v d, resolved (op_window o) w = Ok v ∧
              files (run_op o w)
              = <[getMcpServersRegistryPath (vault_path v) := Document d]>
                  (files w)
  else ∃ e, console (run_op o w) = (console w ++ [(op_message o, e)])%list ∧
            match e with
            | WriteFailed p =>
                ∃ v, resolved (op_window o) w = Ok v ∧
                     p = getMcpServersRegistryPath (vault_path v)
            | NoVaultsFound | ServerNotFound _ =>
                files (run_op o w) = files w
            end.
Proof.
  pose proof (apply_op_outcome o w) as H.
  destruct (resolved (op_window o) w) as [v | e] eqn:Hr.
  - cbn zeta in H.
    destruct (op_mutator o _) as [d | e] eqn:Hd;
      [case_bool_decide |]; injection H as -> ->; cbn.
    + exists (WriteFailed (getMcpServersRegistryPath (vault_path v))).
      eauto.
    + eauto 6.
    + exists e. split; [done |].
      destruct e as [| serverId | p]; [done | done |].
      destruct o as [rnds server wid | sid server wid | sid wid];
        cbn [op_mutator] in Hd.
      * discriminate Hd.
      * unfold update_mutator in Hd. by destruct (negb _).
      * unfold remove_mutator in Hd. by destruct (negb _).
  - injection H as -> ->. cbn. exists e. split; [done |].
    rewrite resolved_spec in Hr. unfold resolveActiveVault_spec in Hr.
    destruct (vaults w); [by injection Hr as <- |].
    destruct (op_window o) as [n |]; [| discriminate Hr].
    case_bool_decide; [discriminate Hr |].
    by destruct (getActiveVaultForWindow _ _ _).
Qed.

(** X4.  [addMcpServer] answers [true] exactly when a vault resolves and
    its registry file can be written: no record and no registry content
    makes it fail. *)
Theorem addMcpServer_succeeds_iff (rnds : list Z) (server : McpServer)
    (windowId : option Z) (w : World) :
  (fst (addMcpServer rnds server windowId w) = true) ↔
  (∃ v, resolved windowId w = Ok v ∧
        getMcpServersRegistryPath (vault_path v) ∉ unwritable w).
Proof.
  pose proof (apply_op_outcome (Add rnds server windowId) w) as H.
  cbn [op_answer run_op op_window op_message op_mutator] in H.
  apply (f_equal fst) in H. cbn [fst] in H. rewrite H. clear H.
  destruct (resolved windowId w) as [v | e]; cbn.
  - unfold add_mutator. case_bool_decide; cbn; split.
    + discriminate.
    + intros (v' & [= <-] & Hn). done.
    + eauto.
    + done.
  - split; [discriminate | intros (v & Hv & _); discriminate].
Qed.

(** X5.  [updateMcpServer] and [removeMcpServer] answer [true] exactly
    when a vault resolves, its registry file can be written, and
    [serverId] is a key of the vault's mapping or one of the names a
    plain object inherits. *)
Theorem update_remove_succeed_iff (serverId : string) (server : McpServer)
    (windowId : option Z) (w : World) :
  ((fst (updateMcpServer serverId server windowId w) = true) ↔
   (∃ v, resolved windowId w = Ok v ∧
         (getMcpServersRegistryPath (vault_path v) ∉ unwritable w) ∧
         (is_Some (listed windowId w !! serverId) ∨
          Js.inherited serverId = true))) ∧
  ((fst (removeMcpServer serverId windowId w) = true) ↔
   (∃ v, resolved windowId w = Ok v ∧
         (getMcpServersRegistryPath (vault_path v) ∉ unwritable w) ∧
         (is_Some (listed windowId w !! serverId) ∨
          Js.inherited serverId = true))).
Proof.
  assert (∀ f msg,
    (∀ d, (∃ d', f d = Ok d')
          ↔ Js.truthy_get (servers d) serverId = true) →
    (fst (try_catch (registry_update f windowId) msg false w) = true) ↔
    (∃ v, resolved windowId w = Ok v ∧
          (getMcpServersRegistryPath (vault_path v) ∉ unwritable w) ∧
          (is_Some (listed windowId w !! serverId) ∨
           Js.inherited serverId = true))) as Hgen.
  { intros f msg Hf. rewrite registry_update_outcome, listed_eq.
    destruct (resolved windowId w) as [v | e]; cbn zeta.
    - set (p := getMcpServersRegistryPath (vault_path v)).
      assert (Js.truthy_get (servers (registry_at p w)) serverId = true ↔
              is_Some (servers (registry_at p w) !! serverId) ∨
              Js.inherited serverId = true) as Ht.
      { unfold Js.truthy_get. rewrite orb_true_iff, bool_decide_eq_true.
        done. }
      destruct (f (registry_at p w)) as [d | e] eqn:E.
      + assert (Js.truthy_get (servers (registry_at p w)) serverId = true)
          as Hg by (apply Hf; eauto).
        case_bool_decide; cbn; split.
        * discriminate.
        * intros (v' & [= <-] & Hn & _). done.
        * intros _. exists v. split; [done |]. split; [done |]. by apply Ht.
        * done.
      + cbn. split; [discriminate |].
        intros (v' & [= <-] & _ & Hk). apply Ht, Hf in Hk.
        destruct Hk as [d' Hd']. fold p in Hd'. congruence.
    - cbn. split; [discriminate | intros (v & Hv & _); discriminate]. }
  split.
  - unfold updateMcpServer. rewrite updateMcpServer_body_eq. apply Hgen.
    intros d. unfold update_mutator.
    destruct (Js.truthy_get (servers d) serverId); cbn;
      (split; [intros [d' Hd'] | intros Ht]); eauto; discriminate.
  - unfold removeMcpServer. rewrite removeMcpServer_body_eq. apply Hgen.
    intros d. unfold remove_mutator.
    destruct (Js.truthy_get (servers d) serverId); cbn;
      (split; [intros [d' Hd'] | intros Ht]); eauto; discriminate.
Qed.

(** *** Helpers for composing operations *)

Lemma run_op_written (o : Op) (w : World) (v : Vault)
    (d : McpServerRegistry) :
  resolved (op_window o) w = Ok v →
  getMcpServersRegistryPath (vault_path v) ∉ unwritable w →
  op_mutator o (registry_at (getMcpServersRegistryPath (vault_path v)) w)
  = Ok d →
  op_answer o w = true ∧
  run_op o w
  = with_files (<[getMcpServersRegistryPath (vault_path v) := Document d]>
                  (files w)) w.
Proof.
  intros Hr Hw Hd. pose proof (apply_op_outcome o w) as H.
  rewrite Hr in H. cbn zeta in H. rewrite Hd in H.
  rewrite bool_decide_eq_false_2 in H by exact Hw. by injection H as -> ->.
Qed.

Lemma run_op_refused (o : Op) (w : World) (v : Vault) (e : Error) :
  resolved (op_window o) w = Ok v →
  op_mutator o (registry_at (getMcpServersRegistryPath (vault_path v)) w)
  = Err e →
  op_answer o w = false ∧ run_op o w = console_error (op_message o) e w.
Proof.
  intros Hr Hd. pose proof (apply_op_outcome o w) as H.
  rewrite Hr in H. cbn zeta in H. rewrite Hd in H. by injection H as -> ->.
Qed.

Lemma listed_same_files (windowId : option Z) (w w' : World) :
  vaults w' = vaults w → windowVaults w' = windowVaults w →
  files w' = files w → listed windowId w' = listed windowId w.
Proof.
  intros Hv Hm Hf. rewrite !listed_eq, (resolved_env _ _ _ Hv Hm).
  destruct (resolved windowId w); [| done].
  by rewrite (registry_at_files _ _ _ Hf).
Qed.

Lemma registry_at_written (p : string) (d : McpServerRegistry) (w : World) :
  registry_at p (with_files (<[p := Document d]> (files w)) w) = d.
Proof. rewrite registry_at_write. by rewrite decide_True. Qed.

Lemma op_key_not_proto (rnds : list Z) (server : McpServer) :
  id server ≠ Some "__proto__" →
  Js.property_key (id (assign_id rnds server)) ≠ "__proto__".
Proof.
  intros Hid. unfold assign_id.
  destruct (Js.truthy_string (id server)) eqn:E; cbn.
  - destruct (id server) as [s |]; [| discriminate E]. cbn. congruence.
  - intros H. pose proof (uuidv4_length rnds) as L. rewrite H in L.
    discriminate L.
Qed.

Lemma assign_id_config (rnds : list Z) (server : McpServer) :
  config (assign_id rnds server) = config server.
Proof. unfold assign_id. by destruct (negb _). Qed.

Lemma add_written (rnds : list Z) (server : McpServer) (windowId : option Z)
    (w : World) (v : Vault) :
  id server ≠ Some "__proto__" →
  resolved windowId w = Ok v →
  getMcpServersRegistryPath (vault_path v) ∉ unwritable w →
  fst (addMcpServer rnds server windowId w) = true ∧
  snd (addMcpServer rnds server windowId w)
  = with_files
      (<[getMcpServersRegistryPath (vault_path v) :=
           Document {| servers :=
             <[Js.property_key (id (assign_id rnds server)) :=
                 assign_id rnds server]>
               (servers (registry_at
                           (getMcpServersRegistryPath (vault_path v)) w)) |}]>
         (files w)) w.
Proof.
  intros Hid Hr Hw.
  apply (run_op_written (Add rnds server windowId) w v); [done | done |].
  cbn [op_mutator]. unfold add_mutator. rewrite set_insert; [done |].
  left. by apply op_key_not_proto.
Qed.

Lemma remove_written (serverId : string) (windowId : option Z) (w : World)
    (v : Vault) :
  is_Some (listed windowId w !! serverId) →
  resolved windowId w = Ok v →
  getMcpServersRegistryPath (vault_path v) ∉ unwritable w →
  fst (removeMcpServer serverId windowId w) = true ∧
  snd (removeMcpServer serverId windowId w)
  = with_files
      (<[getMcpServersRegistryPath (vault_path v) :=
           Document {| servers :=
             delete serverId
               (servers (registry_at
                           (getMcpServersRegistryPath (vault_path v)) w)) |}]>
         (files w)) w.
Proof.
  intros Hk Hr Hw. rewrite (listed_resolved _ _ _ Hr) in Hk.
  apply (run_op_written (Remove serverId windowId) w v); [done | done |].
  cbn [op_mutator]. unfold remove_mutator.
  by rewrite (truthy_get_own _ _ Hk).
Qed.

Lemma update_written (serverId : string) (server : McpServer)
    (windowId : option Z) (w : World) (v : Vault) :
  is_Some (listed windowId w !! serverId) →
  resolved windowId w = Ok v →
  getMcpServersRegistryPath (vault_path v) ∉ unwritable w →
  fst (updateMcpServer serverId server windowId w) = true ∧
  snd (updateMcpServer serverId server windowId w)
  = with_files
      (<[getMcpServersRegistryPath (vault_path v) :=
           Document {| servers :=
             <[serverId := with_id serverId server]>
               (servers (registry_at
                           (getMcpServersRegistryPath (vault_path v)) w)) |}]>
         (files w)) w.
Proof.
  intros Hk Hr Hw. rewrite (listed_resolved _ _ _ Hr) in Hk.
  apply (run_op_written (Update serverId server windowId) w v);
    [done | done |].
  cbn [op_mutator]. unfold update_mutator.
  rewrite (truthy_get_own _ _ Hk). cbn [negb].
  rewrite set_insert; [done | by right].
Qed.

(** X6.  A record added under a usable id is listed afterwards.  When the
    vault resolves and the file can be written, [getMcpServers] after
    [addMcpServer] has the record, with its configuration untouched,
    under the id it carries, supplied or generated, and every other key
    as before.  The one id the mapping cannot take is ["__proto__"]. *)
Theorem add_then_list (rnds : list Z) (server : McpServer)
    (windowId : option Z) (w : World) (v : Vault) :
  id server ≠ Some "__proto__" →
  resolved windowId w = Ok v →
  getMcpServersRegistryPath (vault_path v) ∉ unwritable w →
  listed windowId (snd (addMcpServer rnds server windowId w))
    !! op_key (Add rnds server windowId)
  = Some {| id := Some (op_key (Add rnds server windowId));
            config := config server |} ∧
  (Js.truthy_string (id server) = true →
   id server = Some (op_key (Add rnds server windowId))) ∧
  (∀ k, k ≠ op_key (Add rnds server windowId) →
        listed windowId (snd (addMcpServer rnds server windowId w)) !! k
        = listed windowId w !! k).
Proof.
  intros Hid Hr Hw.
  destruct (add_written rnds server windowId w v Hid Hr Hw) as [_ ->].
  rewrite (listed_written _ _ _ _ Hr), (listed_resolved _ _ _ Hr).
  cbn [servers op_key]. repeat split.
  - rewrite lookup_insert_eq. f_equal.
    destruct (assign_id rnds server) as [i c] eqn:E.
    pose proof (assign_id_key rnds server) as Hk.
    pose proof (assign_id_config rnds server) as Hc.
    rewrite E in Hk, Hc. cbn in Hk, Hc. cbn. by rewrite Hk at 1; rewrite Hc.
  - intros Ht. rewrite (assign_id_present _ _ Ht).
    destruct (id server); [done | discriminate Ht].
  - intros k Hne. by rewrite lookup_insert_ne.
Qed.

Lemma add_then_list_witness :
  id Examples.y ≠ Some "__proto__" ∧
  listed None (snd (addMcpServer [] Examples.y None Examples.fresh))
    !! "stale"
  = Some Examples.y.
Proof.
  assert (id Examples.y ≠ Some "__proto__") as Hid by discriminate.
  split; [exact Hid |].
  exact (proj1 (add_then_list [] Examples.y None Examples.fresh
                  Examples.notes Hid eq_refl (not_elem_of_empty _))).
Defined.

Lemma resolved_written (windowId : option Z) (fs : gmap string FileContent)
    (w : World) :
  resolved windowId (with_files fs w) = resolved windowId w.
Proof. by apply resolved_env. Qed.

Lemma listed_present (windowId : option Z) (w : World) (v : Vault)
    (d : McpServerRegistry) (k : string) :
  resolved windowId w = Ok v →
  is_Some (servers d !! k) →
  is_Some (listed windowId
             (with_files
                (<[getMcpServersRegistryPath (vault_path v) := Document d]>
                   (files w)) w) !! k).
Proof. intros Hr Hk. by rewrite (listed_written _ _ _ _ Hr). Qed.

(** X7.  Adding a record under an id the mapping does not have yet and
    removing that id again gives back the mapping there was: both calls
    answer [true] and [getMcpServers] lists what it listed before. *)
Theorem add_then_remove (rnds : list Z) (server : McpServer)
    (windowId : option Z) (w : World) (v : Vault) :
  id server ≠ Some "__proto__" →
  resolved windowId w = Ok v →
  getMcpServersRegistryPath (vault_path v) ∉ unwritable w →
  listed windowId w !! op_key (Add rnds server windowId) = None →
  fst (addMcpServer rnds server windowId w) = true ∧
  fst (removeMcpServer (op_key (Add rnds server windowId)) windowId
         (snd (addMcpServer rnds server windowId w))) = true ∧
  listed windowId
    (snd (removeMcpServer (op_key (Add rnds server windowId)) windowId
            (snd (addMcpServer rnds server windowId w))))
  = listed windowId w.
Proof.
  intros Hid Hr Hw Hk. cbn [op_key] in *.
  destruct (add_written rnds server windowId w v Hid Hr Hw) as [-> ->].
  set (p := getMcpServersRegistryPath (vault_path v)) in *.
  set (k := Js.property_key (id (assign_id rnds server))) in *.
  set (d1 := {| servers := <[k := assign_id rnds server]>
                             (servers (registry_at p w)) |}).
  set (w1 := with_files (<[p := Document d1]> (files w)) w).
  assert (resolved windowId w1 = Ok v) as Hr1
    by (unfold w1; by rewrite resolved_written).
  assert (is_Some (listed windowId w1 !! k)) as Hk1.
  { apply listed_present; [done |]. cbn. rewrite lookup_insert_eq. eauto. }
  destruct (remove_written k windowId w1 v Hk1 Hr1 Hw) as [-> ->].
  split; [done |]. split; [done |].
  rewrite (listed_written _ _ _ _ Hr1). cbn [servers]. fold p.
  unfold w1. rewrite registry_at_written. cbn [servers d1].
  rewrite (listed_resolved _ _ _ Hr) in *. fold p in Hk |- *.
  by apply delete_insert_id.
Qed.

Lemma add_then_remove_witness :
  listed None Examples.stocked !! "stale" = None ∧
  listed None
    (snd (removeMcpServer "stale" None
            (snd (addMcpServer [] Examples.y None Examples.stocked))))
  = listed None Examples.stocked.
Proof.
  assert (listed None Examples.stocked !! "stale" = None) as Hk
    by (vm_compute; reflexivity).
  assert (id Examples.y ≠ Some "__proto__") as Hid by discriminate.
  split; [exact Hk |].
  exact (proj2 (proj2 (add_then_remove [] Examples.y None Examples.stocked
                         Examples.notes Hid eq_refl (not_elem_of_empty _)
                         Hk))).
Defined.

(** X8.  The last update wins.  Updating an existing id twice in a row
    leaves the world exactly as the second update alone would: nothing of
    the first record survives. *)
Theorem update_twice (serverId : string) (first second : McpServer)
    (windowId : option Z) (w : World) (v : Vault) :
  is_Some (listed windowId w !! serverId) →
  resolved windowId w = Ok v →
  getMcpServersRegistryPath (vault_path v) ∉ unwritable w →
  updateMcpServer serverId second windowId
    (snd (updateMcpServer serverId first windowId w))
  = updateMcpServer serverId second windowId w.
Proof.
  intros Hk Hr Hw.
  pose proof (update_written serverId first windowId w v Hk Hr Hw) as [_ H1].
  pose proof (update_written serverId second windowId w v Hk Hr Hw)
    as [H2a H2b].
  rewrite H1.
  set (p := getMcpServersRegistryPath (vault_path v)) in *.
  set (d1 := {| servers := <[serverId := with_id serverId first]>
                             (servers (registry_at p w)) |}) in *.
  set (w1 := with_files (<[p := Document d1]> (files w)) w).
  assert (resolved windowId w1 = Ok v) as Hr1
    by (unfold w1; by rewrite resolved_written).
  assert (is_Some (listed windowId w1 !! serverId)) as Hk1.
  { apply listed_present; [done |]. cbn. rewrite lookup_insert_eq. eauto. }
  pose proof (update_written serverId second windowId w1 v Hk1 Hr1 Hw)
    as [H3a H3b].
  apply injective_projections; [congruence |].
  rewrite H3b, H2b. fold p. unfold w1 at 1. rewrite registry_at_written.
  unfold w1, with_files. cbn [files vaults windowVaults unwritable console d1
                               servers].
  by rewrite !insert_insert_eq.
Qed.

Lemma update_twice_witness :
  is_Some (listed None Examples.stocked !! "a") ∧
  updateMcpServer "a" Examples.x None
    (snd (updateMcpServer "a" Examples.blank None Examples.stocked))
  = updateMcpServer "a" Examples.x None Examples.stocked.
Proof.
  assert (is_Some (listed None Examples.stocked !! "a")) as Hk
    by (exists (with_id "a" Examples.y); vm_compute; reflexivity).
  split; [exact Hk |].
  exact (update_twice "a" Examples.blank Examples.x None Examples.stocked
           Examples.notes Hk eq_refl (not_elem_of_empty _)).
Defined.

(** X9.  A removed id is gone.  After [removeMcpServer] has answered
    [true] for a stored id that is not a name a plain object inherits,
    the id is no longer listed, and updating or removing it again
    answers [false] without touching any file. *)
Theorem removed_id_is_gone (serverId : string) (server : McpServer)
    (windowId : option Z) (w : World) (v : Vault) :
  is_Some (listed windowId w !! serverId) →
  Js.inherited serverId = false →
  resolved windowId w = Ok v →
  getMcpServersRegistryPath (vault_path v) ∉ unwritable w →
  fst (removeMcpServer serverId windowId w) = true ∧
  listed windowId (snd (removeMcpServer serverId windowId w)) !! serverId
  = None ∧
  fst (removeMcpServer serverId windowId
         (snd (removeMcpServer serverId windowId w))) = false ∧
  fst (updateMcpServer serverId server windowId
         (snd (removeMcpServer serverId windowId w))) = false ∧
  files (snd (removeMcpServer serverId windowId
                (snd (removeMcpServer serverId windowId w))))
  = files (snd (removeMcpServer serverId windowId w)) ∧
  files (snd (updateMcpServer serverId server windowId
                (snd (removeMcpServer serverId windowId w))))
  = files (snd (removeMcpServer serverId windowId w)).
Proof.
  intros Hk Hi Hr Hw.
  destruct (remove_written serverId windowId w v Hk Hr Hw) as [-> ->].
  set (p := getMcpServersRegistryPath (vault_path v)) in *.
  set (w1 := with_files _ w).
  assert (listed windowId w1 !! serverId = None) as Hgone.
  { unfold w1. rewrite (listed_written _ _ _ _ Hr). cbn.
    apply lookup_delete_eq. }
  destruct (removeMcpServer_missing serverId windowId w1 Hgone Hi)
    as [Hr1 Hr2].
  destruct (updateMcpServer_missing serverId server windowId w1 Hgone Hi)
    as [Hu1 Hu2].
  done.
Qed.

Lemma removed_id_is_gone_witness :
  is_Some (listed None Examples.stocked !! "a") ∧
  Js.inherited "a" = false ∧
  fst (removeMcpServer "a" None
         (snd (removeMcpServer "a" None Examples.stocked))) = false.
Proof.
  assert (is_Some (listed None Examples.stocked !! "a")) as Hk
    by (exists (with_id "a" Examples.y); vm_compute; reflexivity).
  split; [exact Hk |]. split; [reflexivity |].
  destruct (removed_id_is_gone "a" Examples.x None Examples.stocked
              Examples.notes Hk eq_refl eq_refl (not_elem_of_empty _))
    as (_ & _ & H & _).
  exact H.
Defined.

Lemma resolved_logged (windowId : option Z) (msg : string) (e : Error)
    (w : World) :
  resolved windowId (console_error msg e w) = resolved windowId w.
Proof. by apply resolved_env. Qed.

Lemma listed_logged (windowId : option Z) (msg : string) (e : Error)
    (w : World) :
  listed windowId (console_error msg e w) = listed windowId w.
Proof. by apply listed_same_files. Qed.



Lemma dom_set (o : gmap string McpServer) (k : string) (v : McpServer) :
  dom o ⊆ dom (Js.set o k v) ∧ dom (Js.set o k v) ⊆ dom o ∪ {[k]}.
Proof.
  unfold Js.set. case_bool_decide; [set_solver |].
  rewrite dom_insert_L. set_solver.
Qed.




Lemma unwritable_written (fs : gmap string FileContent) (w : World) :
  unwritable (with_files fs w) = unwritable w.
Proof. reflexivity. Qed.

Lemma unwritable_logged (msg : string) (e : Error) (w : World) :
  unwritable (console_error msg e w) = unwritable w.
Proof. reflexivity. Qed.

Lemma files_written (fs : gmap string FileContent) (w : World) :
  files (with_files fs w) = fs.
Proof. reflexivity. Qed.

Lemma with_files_twice (fs fs' : gmap string FileContent) (w : World) :
  with_files fs' (with_files fs w) = with_files fs' w.
Proof. reflexivity. Qed.

(** Writing operations leave the vaults, the association and the write
    permissions alone. *)
Lemma writers_env (o : Op) (w : World) :
  vaults (run_op o w) = vaults w ∧
  windowVaults (run_op o w) = windowVaults w ∧
  unwritable (run_op o w) = unwritable w.
Proof.
  pose proof (apply_op_outcome o w) as H.
  destruct (resolved (op_window o) w) as [v | e].
  - cbn zeta in H.
    by destruct (op_mutator o _) as [d | e];
      [case_bool_decide |]; injection H as _ ->.
  - by injection H as _ ->.
Qed.

Lemma set_commute (o : gmap string McpServer) (k1 k2 : string)
    (a b : McpServer) :
  k1 ≠ k2 → Js.set (Js.set o k1 a) k2 b = Js.set (Js.set o k2 b) k1 a.
Proof.
  intros Hne. unfold Js.set.
  destruct (bool_decide (k1 = "__proto__" ∧ o !! k1 = None)) eqn:E1;
    destruct (bool_decide (k2 = "__proto__" ∧ o !! k2 = None)) eqn:E2;
    rewrite ?E1, ?E2, ?lookup_insert_ne, ?E1, ?E2 by done;
    [done | done | done | by apply insert_insert_ne].
Qed.

Lemma run_add_eq (rnds : list Z) (server : McpServer) (windowId : option Z)
    (w : World) :
  run_op (Add rnds server windowId) w =
  match resolved windowId w with
  | Err e => console_error "Failed to add MCP server:" e w
  | Ok v =>
      let p := getMcpServersRegistryPath (vault_path v) in
      if bool_decide (p ∈ unwritable w)
      then console_error "Failed to add MCP server:" (WriteFailed p) w
      else with_files
             (<[p := Document {| servers :=
                  Js.set (servers (registry_at p w))
                         (Js.property_key (id (assign_id rnds server)))
                         (assign_id rnds server) |}]> (files w)) w
  end.
Proof.
  pose proof (apply_op_outcome (Add rnds server windowId) w) as H.
  apply (f_equal snd) in H. cbn [snd] in H. rewrite H.
  cbn [op_window op_message op_mutator].
  destruct (resolved windowId w) as [v | e]; [| done].
  cbn zeta. unfold add_mutator. by case_bool_decide.
Qed.

(** X13.  Two [addMcpServer] calls that store under different ids can be
    made in either order: whatever windows they come from, whether they
    succeed or fail, the files after both are the same, and so is the
    console up to the order of its entries. *)
Theorem adds_commute (rnds1 rnds2 : list Z) (server1 server2 : McpServer)
    (window1 window2 : option Z) (w : World) :
  op_key (Add rnds1 server1 window1) ≠ op_key (Add rnds2 server2 window2) →
  files (run_op (Add rnds2 server2 window2)
           (run_op (Add rnds1 server1 window1) w))
  = files (run_op (Add rnds1 server1 window1)
             (run_op (Add rnds2 server2 window2) w)) ∧
  console (run_op (Add rnds2 server2 window2)
             (run_op (Add rnds1 server1 window1) w))
  ≡ₚ console (run_op (Add rnds1 server1 window1)
                (run_op (Add rnds2 server2 window2) w)).
Proof.
  cbn [op_key]. intros Hne.
  set (k1 := Js.property_key (id (assign_id rnds1 server1))) in *.
  set (k2 := Js.property_key (id (assign_id rnds2 server2))) in *.
  assert (∀ a b : string * Error,
            (console w ++ [a]) ++ [b] ≡ₚ (console w ++ [b]) ++ [a]) as Hswap.
  { intros a b. rewrite <- !(assoc_L (++)). cbn. f_equiv. apply perm_swap. }
  rewrite (run_add_eq rnds2 server2 window2 (run_op _ w)).
  rewrite (run_add_eq rnds1 server1 window1 (run_op _ w)).
  rewrite (resolved_env window2 w (run_op (Add rnds1 server1 window1) w))
    by apply (writers_env (Add rnds1 server1 window1) w).
  rewrite (resolved_env window1 w (run_op (Add rnds2 server2 window2) w))
    by apply (writers_env (Add rnds2 server2 window2) w).
  rewrite (proj2 (proj2 (writers_env (Add rnds1 server1 window1) w))).
  rewrite (proj2 (proj2 (writers_env (Add rnds2 server2 window2) w))).
  rewrite !run_add_eq. fold k1 k2.
  destruct (resolved window1 w) as [v1 | e1], (resolved window2 w) as [v2 | e2];
    cbn zeta.
  - set (p1 := getMcpServersRegistryPath (vault_path v1)).
    set (p2 := getMcpServersRegistryPath (vault_path v2)).
    clearbody p1 p2.
    destruct (bool_decide (p1 ∈ unwritable w)) eqn:U1;
      destruct (bool_decide (p2 ∈ unwritable w)) eqn:U2;
      try (split; [reflexivity | cbn; by auto]).
    split; [| reflexivity].
    rewrite !files_written, !registry_at_write.
    destruct (decide (p1 = p2)) as [E | E].
    + subst p2. rewrite ?decide_True by done. cbn [servers].
      rewrite !insert_insert_eq. by rewrite (set_commute _ k1 k2).
    + rewrite (decide_False (P := p2 = p1)) by done.
      by apply insert_insert_ne.
  - case_bool_decide; (split; [reflexivity | cbn; by auto]).
  - case_bool_decide; (split; [reflexivity | cbn; by auto]).
  - split; [reflexivity | cbn; by auto].
Qed.

Lemma adds_commute_witness :
  op_key (Add [] Examples.x None) ≠ op_key (Add [] Examples.y (Some 7)) ∧
  files (run_op (Add [] Examples.y (Some 7))
           (run_op (Add [] Examples.x None) Examples.fresh))
  = files (run_op (Add [] Examples.x None)
             (run_op (Add [] Examples.y (Some 7)) Examples.fresh)).
Proof.
  assert (op_key (Add [] Examples.x None)
          ≠ op_key (Add [] Examples.y (Some 7))) as Hne
    by (vm_compute; discriminate).
  split; [exact Hne |].
  exact (proj1 (adds_commute [] [] Examples.x Examples.y None (Some 7)
                  Examples.fresh Hne)).
Defined.

(** X18.  [addMcpServer] does not check for collisions.  Adding a record
    whose id is already a key answers [true] and replaces the stored
    record by the new one; every other key keeps its record. *)
Theorem add_replaces_existing (rnds : list Z) (server : McpServer)
    (k : string) (windowId : option Z) (w : World) (v : Vault) :
  id server = Some k →
  k ≠ "" →
  is_Some (listed windowId w !! k) →
  resolved windowId w = Ok v →
  getMcpServersRegistryPath (vault_path v) ∉ unwritable w →
  fst (addMcpServer rnds server windowId w) = true ∧
  listed windowId (snd (addMcpServer rnds server windowId w))
  = <[k := server]> (listed windowId w).
Proof.
  intros Hid Hk Hp Hr Hw.
  assert (Js.truthy_string (id server) = true) as Ht.
  { rewrite Hid. cbn. apply negb_true_iff. by apply String.eqb_neq. }
  destruct (run_op_written (Add rnds server windowId) w v
              {| servers :=
                   <[k := server]>
                     (servers (registry_at
                        (getMcpServersRegistryPath (vault_path v)) w)) |}
              Hr Hw) as [Ha Hw'].
  { cbn [op_mutator]. unfold add_mutator.
    rewrite (assign_id_present _ _ Ht), Hid. cbn [Js.property_key].
    rewrite set_insert; [done |]. right.
    by rewrite (listed_resolved _ _ _ Hr) in Hp. }
  cbn [op_answer run_op] in Ha, Hw'. rewrite Ha, Hw'.
  split; [done |].
  by rewrite (listed_written _ _ _ _ Hr), (listed_resolved _ _ _ Hr).
Qed.

Lemma add_replaces_existing_witness :
  is_Some (listed None Examples.stocked !! "a") ∧
  listed None
    (snd (addMcpServer [] {| id := Some "a"; config := [] |} None
            Examples.stocked)) !! "a"
  = Some {| id := Some "a"; config := [] |}.
Proof.
  assert (is_Some (listed None Examples.stocked !! "a")) as Hk
    by (exists (with_id "a" Examples.y); vm_compute; reflexivity).
  assert ("a" ≠ "") as Hne by discriminate.
  split; [exact Hk |].
  rewrite (proj2 (add_replaces_existing [] {| id := Some "a"; config := [] |}
                    "a" None Examples.stocked Examples.notes eq_refl Hne Hk
                    eq_refl (not_elem_of_empty _))).
  apply lookup_insert_eq.
Defined.



(** * The sidebar's expanded folders *)

(** X14.  [toggleFolder] flips one folder: the folder toggled changes
    side, every other folder stays where it was, toggling twice gives
    the set back, and toggles of two folders can be made in either
    order. *)
Theorem toggle_flips_one_folder (path other : string) (s : gset string) :
  (path ∈ Sidebar.toggle path s ↔ path ∉ s) ∧
  (∀ q, q ≠ path → q ∈ Sidebar.toggle path s ↔ q ∈ s) ∧
  Sidebar.toggle path (Sidebar.toggle path s) = s ∧
  Sidebar.toggle path (Sidebar.toggle other s)
  = Sidebar.toggle other (Sidebar.toggle path s).
Proof.
  assert (∀ p q t, q ∈ Sidebar.toggle p t ↔
                   (q = p ∧ p ∉ t) ∨ (q ≠ p ∧ q ∈ t)) as Hin.
  { intros p q t. unfold Sidebar.toggle.
    destruct (decide (q = p)) as [-> | Hne]; case_bool_decide; set_solver. }
  split; [| split; [| split]].
  - rewrite Hin. naive_solver.
  - intros q Hq. rewrite Hin. naive_solver.
  - apply set_eq. intros q. rewrite !Hin.
    destruct (decide (q = path)) as [-> | Hne];
      destruct (decide (path ∈ s)); naive_solver.
  - apply set_eq. intros q. rewrite !Hin.
    destruct (decide (q = path)), (decide (q = other)),
      (decide (path ∈ s)), (decide (other ∈ s)); naive_solver.
Qed.

Lemma toggle_flips_one_folder_witness :
  "docs" ≠ "notes" ∧
  ("docs" ∈ Sidebar.toggle "notes" {[ "docs" ]}
   ↔ "docs" ∈ ({[ "docs" ]} : gset string)).
Proof.
  assert ("docs" ≠ "notes") as Hne by discriminate.
  split; [exact Hne |].
  exact (proj1 (proj2 (toggle_flips_one_folder "notes" "docs" {[ "docs" ]}))
           "docs" Hne).
Defined.

Lemma toggles_step (events : list Sidebar.Event) (s : gset string)
    (e : Sidebar.Event) :
  Sidebar.toggles (events ++ [e]) s
  = match e with
    | Sidebar.Toggled path => Sidebar.toggle path (Sidebar.toggles events s)
    | Sidebar.DataChanged _ => Sidebar.toggles events s
    end.
Proof. unfold Sidebar.toggles. by rewrite foldl_app. Qed.

(** X15.  The root folder is expanded by the effect once at most.  When
    the initial expansion has been done, no later change of the file
    tree data touches the expanded folders: after any events the set is
    the one the user's toggles alone produce, so a root the user
    collapsed stays collapsed. *)
Theorem root_expands_once (events : list Sidebar.Event)
    (st : Sidebar.State) :
  Sidebar.initialRootExpandDone st = true →
  Sidebar.initialRootExpandDone (Sidebar.run events st) = true ∧
  Sidebar.expandedFolders (Sidebar.run events st)
  = Sidebar.toggles events (Sidebar.expandedFolders st).
Proof.
  intros Hdone. induction events as [| e events IH] using rev_ind.
  - done.
  - destruct IH as [IHd IHs]. unfold Sidebar.run in *.
    rewrite foldl_app, toggles_step. cbn [foldl].
    destruct e as [[n |] | path]; cbn [Sidebar.step].
    + unfold Sidebar.rootExpandEffect. rewrite IHd.
      by rewrite andb_false_r.
    + done.
    + cbn. by rewrite IHs.
Qed.

Lemma root_expands_once_witness :
  Sidebar.initialRootExpandDone
    (Sidebar.rootExpandEffect (Some "notes") Sidebar.initial) = true ∧
  "notes" ∉ Sidebar.expandedFolders
    (Sidebar.run [Sidebar.Toggled "notes"; Sidebar.DataChanged (Some "notes");
                  Sidebar.DataChanged (Some "work")]
       (Sidebar.rootExpandEffect (Some "notes") Sidebar.initial)).
Proof.
  split; [reflexivity |].
  rewrite (proj2 (root_expands_once
                    [Sidebar.Toggled "notes";
                     Sidebar.DataChanged (Some "notes");
                     Sidebar.DataChanged (Some "work")]
                    (Sidebar.rootExpandEffect (Some "notes") Sidebar.initial)
                    eq_refl)).
  vm_compute. intros H. discriminate H.
Defined.

(** Before the initial expansion, the first change of the data
    that brings a tree with a non-empty name expands exactly that root
    and marks the expansion done; data without a tree or with an empty
    name changes nothing and leaves the expansion pending. *)
Theorem first_data_expands_root (name : option string)
    (st : Sidebar.State) :
  Sidebar.initialRootExpandDone st = false →
  match name with
  | Some n =>
      if bool_decide (n = "")
      then Sidebar.rootExpandEffect name st = st
      else Sidebar.initialRootExpandDone
             (Sidebar.rootExpandEffect name st) = true ∧
           (∀ q, q ∈ Sidebar.expandedFolders
                      (Sidebar.rootExpandEffect name st)
                 ↔ q = n ∨ q ∈ Sidebar.expandedFolders st)
  | None => Sidebar.rootExpandEffect name st = st
  end.
Proof.
  intros Hd. destruct name as [n |]; [| done].
  unfold Sidebar.rootExpandEffect, Js.truthy_string. rewrite Hd.
  case_bool_decide as Hn.
  - subst n. done.
  - apply String.eqb_neq in Hn. rewrite Hn. cbn. split; [done |].
    intros q. set_solver.
Qed.

Lemma first_data_expands_root_witness :
  Sidebar.initialRootExpandDone Sidebar.initial = false ∧
  Sidebar.initialRootExpandDone
    (Sidebar.rootExpandEffect (Some "notes") Sidebar.initial) = true.
Proof.
  split; [reflexivity |].
  exact (proj1 (first_data_expands_root (Some "notes") Sidebar.initial
                  eq_refl)).
Defined.

(** * The conversations page *)


